(** * Explorer: Hamming-distance top-k search over HashKey annotations

    Shallow embedding of [src/datumaro/components/explorer.py] and the
    properties of its specification.

    Layout:
    - [np]: the fragment of numpy the module calls ([unpackbits], [!=] with
      broadcasting, [count_nonzero], [stack], fancy indexing, slicing);
    - the data model ([Annotation], [DatasetItem], [Dataset]);
    - [calculate_hamming], [select_uninferenced_dataset], the [Explorer]
      class with [__init__], [compute_hash_key] and [explore_topk];
    - [npysort]: two kinds of [np.argsort], the default one and the stable
      one;
    - the vocabulary of the specification and a worked index;
    - the theorems. *)

From Stdlib Require Import ZArith Lia Strings.Byte Sorted Permutation.
From stdpp Require Import base list strings option numbers.

Set Default Proof Using "Type".

(** ** Python exceptions raised on the modelled paths *)

Inductive Exn :=
| ValueError_database      (* raise ValueError("Database should have hash_key") *)
| ValueError_query         (* raise ValueError("Query should have hash_key") *)
| ValueError_stack         (* np.stack: all input arrays must have the same shape *)
| ValueError_broadcast     (* operands could not be broadcast together *)
| TypeError_unpackbits     (* np.unpackbits on something that is not a uint8 array *)
| IndexError               (* fancy indexing out of bounds *)
| MediaTypeError           (* query neither a DatasetItem nor a str *)
| DatumaroError_ambiguous  (* more than one HashKey in the query item *)
| AttributeError_model.    (* self._model is None when infer_item is called *)

Global Instance Exn_eq_dec : EqDecision Exn.
Proof. solve_decision. Defined.

(** ** The numpy fragment *)

Module np.

(** The payload of a [HashKey]: a one-dimensional uint8 array, or any
    other object (another dtype, [None]), on which [np.unpackbits]
    raises. *)
Inductive ndarray :=
| uint8 (data : list byte)
| not_uint8.

Global Instance byte_eq_dec : EqDecision byte :=
  λ x y, match Byte.eqb x y as c return Byte.eqb x y = c → Decision (x = y) with
         | true => λ H, left (Byte.byte_dec_bl x y H)
         | false => λ H, right (Byte.eqb_false H)
         end eq_refl.

Global Instance ndarray_eq_dec : EqDecision ndarray.
Proof. solve_decision. Defined.

(** One byte, most significant bit first (numpy's default bit order). *)
Definition unpack_byte (b : byte) : list bool :=
  (λ i, N.testbit (Byte.to_N b) i) <$> [7; 6; 5; 4; 3; 2; 1; 0]%N.

(** [np.unpackbits(a, axis=-1)] *)
Definition unpackbits (a : ndarray) : option (list bool) :=
  match a with
  | uint8 data => Some (data ≫= unpack_byte)
  | not_uint8 => None
  end.

(** [B1 != row] for a vector against one row of a two-dimensional array,
    with numpy's broadcasting on the last axis: equal lengths compare
    element by element, a length-1 operand is stretched, anything else
    does not broadcast. *)
Definition not_equal (B1 row : list bool) : option (list bool) :=
  if decide (length B1 = length row) then Some (zip_with xorb B1 row)
  else match B1, row with
       | [b], _ => Some (xorb b <$> row)
       | _, [r] => Some ((λ b, xorb b r) <$> B1)
       | _, _ => None
       end.

(** [np.count_nonzero] along one row; numpy returns an [intp]. *)
Definition count_nonzero (row : list bool) : Z :=
  Z.of_nat (length (filter (λ b, b = true) row)).

(** [np.stack(arrays, axis=0)]: needs at least one array and one common
    shape. *)
Definition stack (arrays : list (list bool)) : option (list (list bool)) :=
  match arrays with
  | [] => None
  | a :: rest =>
      if forallb (λ a', Nat.eqb (length a') (length a)) rest
      then Some arrays else None
  end.

(** [np.array(l)[ind]]: fancy indexing by an index array; an index out
    of bounds raises [IndexError]. *)
Definition take_along {A} (l : list A) (ind : list nat) : option (list A) :=
  mapM (λ i, l !! i) ind.

(** [l[:k]] for an integer [k]: a negative stop counts from the end. *)
Definition slice_to {A} (k : Z) (l : list A) : list A :=
  if (k <? 0)%Z then take (Z.to_nat (Z.of_nat (length l) + k)) l
  else take (Z.to_nat k) l.

End np.

(** ** Data model *)

(** An annotation is a [HashKey] or anything else. *)
Inductive Annotation :=
| HashKey (hash_key : np.ndarray)
| OtherAnnotation (label : string).

Global Instance Annotation_eq_dec : EqDecision Annotation.
Proof. solve_decision. Defined.

(** [isinstance(annotation, HashKey)] *)
Definition is_HashKey (a : Annotation) : bool :=
  match a with HashKey _ => true | OtherAnnotation _ => false end.

Record DatasetItem := mkItem {
  id : string;
  subset : string;
  annotations : list Annotation;
}.

Global Instance DatasetItem_eq_dec : EqDecision DatasetItem.
Proof. solve_decision. Defined.

(** Modelled from the spec: the [Dataset] class (datumaro.components.dataset)
    is not part of the source. A collection is an ordered sequence of items,
    iterated in a deterministic order, with an update that merges by item
    identity, which for a Dataset is the pair (id, subset). *)
Abbreviation Dataset := (list DatasetItem).

Definition item_key (item : DatasetItem) : string * string :=
  (id item, subset item).

(** Modelled from the spec: [Dataset.put], write by item identity. An item
    with the same identity is replaced in place, a new one is appended. *)
Fixpoint put (item : DatasetItem) (dataset : Dataset) : Dataset :=
  match dataset with
  | [] => [item]
  | x :: rest =>
      if decide (item_key x = item_key item) then item :: rest
      else x :: put item rest
  end.

(** Modelled from the spec: [Dataset.update], the bulk merge by item
    identity. *)
Definition update (dataset other : Dataset) : Dataset :=
  foldl (λ acc item, put item acc) dataset other.

(** ** Module-level functions *)

Definition calculate_hamming (B1 : list bool) (B2 : list (list bool))
  : option (list Z) :=
  mapM (λ row, np.count_nonzero <$> np.not_equal B1 row) B2.

Definition select_uninferenced_dataset (dataset : Dataset) : Dataset :=
  foldl (λ uninferenced_dataset item,
           if negb (existsb is_HashKey (annotations item))
           then put item uninferenced_dataset
           else uninferenced_dataset)
        [] dataset.

(** ** The Explorer object *)

Record Explorer := mkExplorer {
  _model : option string;
  _text_model : option string;
  _topk : Z;
  _database_keys : list (list bool);
  _item_list : list DatasetItem;
}.

(** A query is a [DatasetItem], a [str], or some other object. *)
Inductive Query :=
| QItem (item : DatasetItem)
| QText (text : string)
| QOther.

(** Methods run against the object and either return or raise; what they
    assigned to [self] before raising stays assigned. *)
Definition Method (A : Type) : Type := Explorer → (Exn + A) * Explorer.

Definition ret {A} (a : A) : Method A := λ self, (inr a, self).
Definition raise {A} (e : Exn) : Method A := λ self, (inl e, self).
Definition bind {A B} (m : Method A) (f : A → Method B) : Method B :=
  λ self, match m self with
          | (inl e, self') => (inl e, self')
          | (inr a, self') => f a self'
          end.
Definition get_self : Method Explorer := λ self, (inr self, self).
Definition or_raise {A} (e : Exn) (o : option A) : Method A :=
  match o with Some a => ret a | None => raise e end.

Declare Scope method_scope.
Delimit Scope method_scope with method.
Notation "'do' x <- m ; k" := (bind m (λ x, k))
  (at level 10, x name, m at level 100, k at level 200,
   format "'[v' 'do'  x  <-  m ; '/' k ']'") : method_scope.

(** ** Methods of [Explorer] *)

Section Explorer.

(** The inference runtime ([ExplorerLauncher], [Dataset.run_model]) and
    numpy's [argsort] are outside the module; the methods are written
    against what they return. *)

(** The annotations the visual model yields for one item when
    [run_model(..., append_annotation=True)] runs over a dataset. *)
Variable launch : DatasetItem → list Annotation.
(** [ExplorerLauncher.infer_item] and [infer_text]: a [HashKey], or
    something that is none ([None] when the media has no data). *)
Variable infer_item : DatasetItem → option Annotation.
Variable infer_text : string → option Annotation.
(** [np.argsort] with its default [kind]. *)
Variable argsort : list Z → list nat.

(** Modelled from the spec: [Dataset.run_model] with
    [append_annotation=True] attaches the model's output to each item. *)
Definition run_model (dataset : Dataset) : Dataset :=
  (λ item, mkItem (id item) (subset item)
                  (annotations item ++ launch item)) <$> dataset.

(** The [model] property is read only when some dataset has something to
    infer; reading it creates the launcher. The result pairs the updated
    datasets with the value [self._model] has afterwards. *)
Definition compute_hash_key (datasets datasets_to_infer : list Dataset)
  : list Dataset * option string :=
  let inferred :=
    (λ dataset, if decide (0 < length dataset) then run_model dataset
                else dataset) <$> datasets_to_infer in
  let model :=
    if existsb (λ dataset, bool_decide (0 < length dataset)) datasets_to_infer
    then Some "clip_visual_ViT-B_32" else None in
  (zip_with update datasets inferred, model).

(** The three nested loops of [__init__] (lines 59-69): one row and one
    item reference per [HashKey] annotation that unpacks. *)
Definition collect_item (item : DatasetItem)
  : list (list bool * DatasetItem) :=
  annotations item ≫= λ annotation,
    match annotation with
    | HashKey hash_key =>
        match np.unpackbits hash_key with
        | Some hash_key => [(hash_key, item)]
        | None => []            (* except Exception: continue *)
        end
    | OtherAnnotation _ => []
    end.

Definition collect (datasets : list Dataset)
  : list (list bool * DatasetItem) :=
  datasets ≫= λ dataset, dataset ≫= collect_item.

Definition __init__ (datasets : list Dataset) (topk : Z) : Exn + Explorer :=
  let datasets_to_infer := select_uninferenced_dataset <$> datasets in
  let '(datasets, model) := compute_hash_key datasets datasets_to_infer in
  let rows := collect datasets in
  let database_keys := rows.*1 in
  let item_list := rows.*2 in
  (* an unpacked row is an ndarray, never None *)
  if forallb (λ _, false) database_keys then inl ValueError_database
  else match np.stack database_keys with
       | None => inl ValueError_stack
       | Some stacked => inr (mkExplorer model None topk stacked item_list)
       end.

Local Open Scope method_scope.

(** The [text_model] property: created on first use and kept. *)
Definition text_model : Method string :=
  λ self,
    match _text_model self with
    | Some m => (inr m, self)
    | None =>
        (inr "clip_text_ViT-B_32",
         mkExplorer (_model self) (Some "clip_text_ViT-B_32") (_topk self)
                    (_database_keys self) (_item_list self))
    end.

Definition _get_hash_key_from_item_query (query : DatasetItem)
  : Method (option Annotation) :=
  let query_keys_in_item := filter (λ a, is_HashKey a = true) (annotations query) in
  if decide (1 < length query_keys_in_item) then raise DatumaroError_ambiguous
  else match query_keys_in_item with
       | [key] => ret (Some key)
       | _ =>
           do self <- get_self ;
           match _model self with
           | None => raise AttributeError_model
           | Some _ => ret (infer_item query)
           end
       end.

Definition _get_hash_key_from_text_query (query : string)
  : Method (option Annotation) :=
  do m <- text_model ; ret (infer_text query).

(** Lines 111-125: the query is resolved to a [HashKey] and unpacked. *)
Definition query_bits (query : Query) : Method (list bool) :=
  do query_key <- match query with
              | QItem item => _get_hash_key_from_item_query item
              | QText text => _get_hash_key_from_text_query text
              | QOther => raise MediaTypeError
              end ;
  match query_key with
  | Some (HashKey hash_key) =>
      or_raise TypeError_unpackbits (np.unpackbits hash_key)
  | _ => raise ValueError_query
  end.

(** Lines 126-130: distances, ranking, selection. [database_keys] was
    read from the object on line 109, [self._item_list] is read here. *)
Definition rank (database_keys : list (list bool))
    (unpacked_key : list bool) (topk : Z) : Method (list DatasetItem) :=
  do logits <- or_raise ValueError_broadcast
                 (calculate_hamming unpacked_key database_keys) ;
  let ind := argsort logits in
  do self <- get_self ;
  do item_list <- or_raise IndexError (np.take_along (_item_list self) ind) ;
  ret (np.slice_to topk item_list).

(** Lines 106-107, [if not topk: topk = self._topk]: [None] and [0] are
    the falsy values of an optional integer. *)
Definition topk_or_default (self : Explorer) (topk : option Z) : Z :=
  match topk with
  | None => _topk self
  | Some k => if decide (k = 0%Z) then _topk self else k
  end.

Definition explore_topk (query : Query) (topk : option Z)
  : Method (list DatasetItem) :=
  do self <- get_self ;
  let topk := topk_or_default self topk in
  let database_keys := _database_keys self in
  do unpacked_key <- query_bits query ;
  rank database_keys unpacked_key topk.

End Explorer.

(** ** Two kinds of [np.argsort]

    [np.argsort(a)] fills an index array with [0 .. n-1] and sorts it by
    the values it points to. [aquicksort] is the default kind
    ([kind='quicksort'], the generic introsort of numpy's
    [npysort/quicksort.cpp], the path taken without SIMD dispatch, with
    its heapsort fallback from [npysort/heapsort.cpp]); [argsort_stable]
    is [kind='stable']. Positions are C pointers into the index array,
    written as offsets. Every loop carries a fuel bound. *)

Module npysort.

Local Open Scope Z_scope.

Definition SMALL_QUICKSORT : Z := 16.

(** [while (unum >>= 1) depth_limit++] *)
Definition npy_get_msb (unum : Z) : Z := Z.log2 unum.

Section WithValues.

Variable v : list Z.
(** Fuel for every loop; each runs at most [length v + 1] times. *)
Variable gas : nat.

Definition elem (tosort : list nat) (p : Z) : nat := tosort !!! Z.to_nat p.
Definition key (tosort : list nat) (p : Z) : Z := v !!! elem tosort p.
Definition store (tosort : list nat) (p : Z) (x : nat) : list nat :=
  <[Z.to_nat p := x]> tosort.
Definition INTP_SWAP (tosort : list nat) (p q : Z) : list nat :=
  store (store tosort p (elem tosort q)) q (elem tosort p).

(** [do { ++pi; } while (v[*pi] < vp);] *)
Fixpoint scan_up (fuel : nat) (tosort : list nat) (vp pi : Z) : option Z :=
  match fuel with
  | O => None
  | S fuel =>
      let pi := pi + 1 in
      if key tosort pi <? vp then scan_up fuel tosort vp pi else Some pi
  end.

(** [do { --pj; } while (vp < v[*pj]);] *)
Fixpoint scan_down (fuel : nat) (tosort : list nat) (vp pj : Z) : option Z :=
  match fuel with
  | O => None
  | S fuel =>
      let pj := pj - 1 in
      if vp <? key tosort pj then scan_down fuel tosort vp pj else Some pj
  end.

(** The [for (;;)] loop of the partition; only [pi] is read afterwards. *)
Fixpoint partition (fuel : nat) (tosort : list nat) (vp pi pj : Z)
  : option (list nat * Z) :=
  match fuel with
  | O => None
  | S fuel =>
      pi ← scan_up gas tosort vp pi;
      pj ← scan_down gas tosort vp pj;
      if pi >=? pj then Some (tosort, pi)
      else partition fuel (INTP_SWAP tosort pi pj) vp pi pj
  end.

(** [while ((pr - pl) > SMALL_QUICKSORT)]: median of three, partition,
    push the larger part with the decremented depth. *)
Fixpoint quick (fuel : nat) (tosort : list nat) (pl pr : Z)
    (stack : list (Z * Z * Z)) (cdepth : Z)
  : option (list nat * Z * Z * list (Z * Z * Z)) :=
  match fuel with
  | O => None
  | S fuel =>
      if pr - pl >? SMALL_QUICKSORT then
        let pm := pl + Z.shiftr (pr - pl) 1 in
        let tosort := if key tosort pm <? key tosort pl
                      then INTP_SWAP tosort pm pl else tosort in
        let tosort := if key tosort pr <? key tosort pm
                      then INTP_SWAP tosort pr pm else tosort in
        let tosort := if key tosort pm <? key tosort pl
                      then INTP_SWAP tosort pm pl else tosort in
        let vp := key tosort pm in
        let pi := pl in
        let pj := pr - 1 in
        let tosort := INTP_SWAP tosort pm pj in
        '(tosort, pi) ← partition gas tosort vp pi pj;
        let pk := pr - 1 in
        let tosort := INTP_SWAP tosort pi pk in
        let cdepth := cdepth - 1 in
        if pi - pl <? pr - pi
        then quick fuel tosort pl (pi - 1) ((pi + 1, pr, cdepth) :: stack) cdepth
        else quick fuel tosort (pi + 1) pr ((pl, pi - 1, cdepth) :: stack) cdepth
      else Some (tosort, pl, pr, stack)
  end.

(** [while (pj > pl && vp < v[*pk]) { *pj-- = *pk--; }] *)
Fixpoint shift (fuel : nat) (tosort : list nat) (pl vp pj pk : Z)
  : option (list nat * Z) :=
  match fuel with
  | O => None
  | S fuel =>
      if (pl <? pj) && (vp <? key tosort pk)
      then shift fuel (store tosort pj (elem tosort pk)) pl vp (pj - 1) (pk - 1)
      else Some (tosort, pj)
  end.

(** [for (pi = pl + 1; pi <= pr; ++pi)]: insertion sort of a short run. *)
Fixpoint insertion (fuel : nat) (tosort : list nat) (pl pr pi : Z)
  : option (list nat) :=
  match fuel with
  | O => None
  | S fuel =>
      if pi <=? pr then
        let vi := elem tosort pi in
        let vp := v !!! vi in
        '(tosort, pj) ← shift gas tosort pl vp pi (pi - 1);
        insertion fuel (store tosort pj vi) pl pr (pi + 1)
      else Some tosort
  end.

(** Heapsort addresses its run from one: [a = tosort - 1]. *)
Definition a_ (pl k : Z) : Z := pl + k - 1.

(** [for (i = .., j = ..; j <= n;)]: sift [tmp] down from [i]. *)
Fixpoint sift (fuel : nat) (tosort : list nat) (pl n : Z) (tmp : nat) (i j : Z)
  : option (list nat * Z) :=
  match fuel with
  | O => None
  | S fuel =>
      if j <=? n then
        let j := if (j <? n) && (key tosort (a_ pl j) <? key tosort (a_ pl (j + 1)))
                 then j + 1 else j in
        if v !!! tmp <? key tosort (a_ pl j)
        then sift fuel (store tosort (a_ pl i) (elem tosort (a_ pl j)))
                  pl n tmp j (j + j)
        else Some (tosort, i)
      else Some (tosort, i)
  end.

(** [for (l = n >> 1; l > 0; --l)] *)
Fixpoint heapify (fuel : nat) (tosort : list nat) (pl n l : Z)
  : option (list nat) :=
  match fuel with
  | O => None
  | S fuel =>
      if 0 <? l then
        let tmp := elem tosort (a_ pl l) in
        '(tosort, i) ← sift gas tosort pl n tmp l (Z.shiftl l 1);
        heapify fuel (store tosort (a_ pl i) tmp) pl n (l - 1)
      else Some tosort
  end.

(** [for (; n > 1;)] *)
Fixpoint extract (fuel : nat) (tosort : list nat) (pl n : Z)
  : option (list nat) :=
  match fuel with
  | O => None
  | S fuel =>
      if 1 <? n then
        let tmp := elem tosort (a_ pl n) in
        let tosort := store tosort (a_ pl n) (elem tosort (a_ pl 1)) in
        let n := n - 1 in
        '(tosort, i) ← sift gas tosort pl n tmp 1 2;
        extract fuel (store tosort (a_ pl i) tmp) pl n
      else Some tosort
  end.

Definition aheapsort (tosort : list nat) (pl n : Z) : option (list nat) :=
  tosort ← heapify gas tosort pl n (Z.shiftr n 1);
  extract gas tosort pl n.

(** The outer [while (1)] with its [stack_pop] label. *)
Fixpoint introsort (fuel : nat) (tosort : list nat) (pl pr : Z)
    (stack : list (Z * Z * Z)) (cdepth : Z) : option (list nat) :=
  match fuel with
  | O => None
  | S fuel =>
      '(tosort, stack) ←
        (if cdepth <? 0 then
           tosort ← aheapsort tosort pl (pr - pl + 1);
           Some (tosort, stack)
         else
           '(tosort, pl, pr, stack) ← quick gas tosort pl pr stack cdepth;
           tosort ← insertion gas tosort pl pr (pl + 1);
           Some (tosort, stack));
      match stack with
      | [] => Some tosort
      | (pl, pr, cdepth) :: stack => introsort fuel tosort pl pr stack cdepth
      end
  end.

End WithValues.

Definition aquicksort (v : list Z) : option (list nat) :=
  let num := length v in
  introsort v (S num) (S num) (seq 0 num) 0 (Z.of_nat num - 1) []
            (npy_get_msb (Z.of_nat num) * 2).

(** [np.argsort(v)] *)
Definition argsort (v : list Z) : list nat :=
  default (seq 0 (length v)) (aquicksort v).

(** [np.argsort(v, kind='stable')]: each index is placed behind the
    indices already there whose value is not larger. *)
Fixpoint insert_index (v : list Z) (i : nat) (sorted : list nat) : list nat :=
  match sorted with
  | [] => [i]
  | j :: rest =>
      if v !!! i <? v !!! j then i :: sorted else j :: insert_index v i rest
  end.

Fixpoint argsort_stable_upto (v : list Z) (n : nat) : list nat :=
  match n with
  | O => []
  | S n => insert_index v n (argsort_stable_upto v n)
  end.

Definition argsort_stable (v : list Z) : list nat :=
  argsort_stable_upto v (length v).

End npysort.

(** ** Vocabulary of the specification *)

(** What [np.argsort] promises for every kind: the indices [0 .. n-1],
    reordered so that the values they point to ascend. The order among
    equal values is left open. *)
Definition sorting_permutation (a : list Z) (ind : list nat) : Prop :=
  ind ≡ₚ seq 0 (length a) ∧
  StronglySorted Z.le ((λ i, a !!! i) <$> ind).

Definition argsort_spec (argsort : list Z → list nat) : Prop :=
  ∀ a : list Z, sorting_permutation a (argsort a).

(** An index is ready when [__init__] returned it. *)
Definition Ready (launch : DatasetItem → list Annotation) (self : Explorer)
  : Prop :=
  ∃ datasets topk, __init__ launch datasets topk = inr self.

(** The [HashKey] annotations an item carries. *)
Definition hash_keys (item : DatasetItem) : list Annotation :=
  filter (λ a, is_HashKey a = true) (annotations item).

(** The payloads of those annotations, in annotation order. *)
Definition payloads (item : DatasetItem) : list np.ndarray :=
  omap (λ a, match a with HashKey hash_key => Some hash_key | _ => None end)
       (annotations item).


(** [argsort] keeps that promise on the distances from one query
    fingerprint to the rows of an index. *)
Definition argsort_ranks (argsort : list Z → list nat)
    (self : Explorer) (bits : list bool) : Prop :=
  ∀ logits, calculate_hamming bits (_database_keys self) = Some logits →
            sorting_permutation logits (argsort logits).

(** The number of rows, which is the number of indexed items. *)
Definition number_of_items (self : Explorer) : nat :=
  length (_item_list self).

(** The Hamming distance in the words of the specification: the number of
    bit positions at which two vectors differ. *)
Definition differing_positions (A B : list bool) : nat :=
  length (filter (λ i, A !! i ≠ B !! i) (seq 0 (length A))).

(** What a query may change on the object: nothing but the lazily created
    text model. *)
Definition same_index (self self' : Explorer) : Prop :=
  _model self' = _model self ∧ _topk self' = _topk self ∧
  _database_keys self' = _database_keys self ∧
  _item_list self' = _item_list self.

(** A ranking is stable when, among rows at equal distance, the smaller
    row index comes first. *)
Definition stable_ranking (logits : list Z) (ind : list nat) : Prop :=
  ∀ p q i j,
    ind !! p = Some i → ind !! q = Some j →
    logits !! i = logits !! j → i < j → p < q.

(** The order a stable argsort puts indices in: smaller value first, and
    among equal values smaller index first. *)
Definition before (v : list Z) (i j : nat) : Prop :=
  (v !!! i < v !!! j)%Z ∨ (v !!! i = v !!! j ∧ i < j).

(** What [compute_hash_key] makes of one item: the model's annotations are
    attached to an item that carries no [HashKey], any other item is kept
    as it is. *)
Definition infer_missing (launch : DatasetItem → list Annotation)
    (item : DatasetItem) : DatasetItem :=
  if decide (hash_keys item = [])
  then mkItem (id item) (subset item) (annotations item ++ launch item)
  else item.

(** An annotation list holds a [HashKey] that unpacks. *)
Definition has_readable_key (item : DatasetItem) : Prop :=
  ∃ hash_key, HashKey hash_key ∈ annotations item ∧
              is_Some (np.unpackbits hash_key).

(** ** A worked index

    Three items with the 8-bit fingerprints 00000000, 00000011 and
    11111111, and a query item whose fingerprint is 00000001. The
    inference runtime finds no fingerprint for anything. *)

Definition fingerprint (b : byte) : Annotation := HashKey (np.uint8 [b]).

Definition ex_item_a : DatasetItem := mkItem "a" "train" [fingerprint x00].
Definition ex_item_b : DatasetItem := mkItem "b" "train" [fingerprint x03].
Definition ex_item_c : DatasetItem := mkItem "c" "train" [fingerprint xff].
Definition ex_dataset : Dataset := [ex_item_a; ex_item_b; ex_item_c].

Definition ex_query : DatasetItem := mkItem "q" "query" [fingerprint x01].

Definition ex_no_launch : DatasetItem → list Annotation := λ _, [].
Definition ex_no_infer_item : DatasetItem → option Annotation := λ _, None.
Definition ex_no_infer_text : string → option Annotation := λ _, None.

Definition ex_bits (b : byte) : list bool := np.unpack_byte b.

Definition ex_index : Explorer :=
  mkExplorer None None 10 [ex_bits x00; ex_bits x03; ex_bits xff]
             [ex_item_a; ex_item_b; ex_item_c].

(** An item with two fingerprints, alone and next to an item without any. *)
Definition ex_item_two : DatasetItem :=
  mkItem "d" "train" [fingerprint x00; OtherAnnotation "cat"; fingerprint x0f].
Definition ex_item_bare : DatasetItem := mkItem "e" "train" [OtherAnnotation "dog"].

(** Eighteen items that all carry the fingerprint 00000000. *)
Definition ex_crowd : Dataset :=
  (λ name, mkItem name "train" [fingerprint x00]) <$>
    ["0"; "1"; "2"; "3"; "4"; "5"; "6"; "7"; "8"; "9"; "10"; "11"; "12";
     "13"; "14"; "15"; "16"; "17"].

Definition ex_crowd_index : Explorer :=
  mkExplorer None None 10 (replicate 18 (ex_bits x00)) ex_crowd.

(** A model that finds the fingerprint 00001111 for every item, and a
    dataset in which one item of two still lacks a fingerprint. *)
Definition ex_launch : DatasetItem → list Annotation := λ _, [fingerprint x0f].
Definition ex_mixed : Dataset := [ex_item_a; ex_item_bare].

(** An item whose fingerprint is two bytes wide. *)
Definition ex_item_wide : DatasetItem :=
  mkItem "w" "train" [HashKey (np.uint8 [x00; x01])].

(** * Properties *)

(** ** Lists *)

Lemma StronglySorted_lookup {A} (R : A → A → Prop) l a b x y :
  StronglySorted R l → l !! a = Some x → l !! b = Some y → a < b → R x y.
Proof.
  intros Hs. revert a b. induction Hs as [|z l Hs IH Hall]; intros a b Ha Hb Hab.
  - done.
  - destruct b as [|b]; [lia|]. destruct a as [|a]; simplify_eq/=.
    + rewrite list.Forall_forall in Hall. apply Hall.
      by eapply list_elem_of_lookup_2.
    + apply (IH a b); [done..|lia].
Qed.

(** ** The stable kind meets that promise *)

Section StableArgsort.

Import npysort.
Variable v : list Z.

Lemma insert_index_perm i l : insert_index v i l ≡ₚ i :: l.
Proof.
  induction l as [|j l IH]; simpl; [done|].
  case_match; [done|]. rewrite IH. apply perm_swap.
Qed.

Lemma insert_index_sorted i l :
  StronglySorted Z.le ((λ i, v !!! i) <$> l) →
  StronglySorted Z.le ((λ i, v !!! i) <$> insert_index v i l).
Proof.
  induction l as [|j l IH]; simpl; intros Hs.
  - repeat constructor.
  - apply StronglySorted_inv in Hs as [Hs Hall].
    destruct (Z.ltb_spec (v !!! i) (v !!! j)) as [Hlt|Hge]; simpl.
    + constructor; [by constructor|].
      constructor; [lia|].
      eapply Forall_impl; [|exact Hall]. simpl. intros; lia.
    + constructor; [by apply IH|].
      rewrite insert_index_perm. simpl. by constructor.
Qed.

Lemma argsort_stable_upto_perm n : argsort_stable_upto v n ≡ₚ seq 0 n.
Proof.
  induction n as [|n IH]; [done|].
  rewrite seq_S. cbn [argsort_stable_upto].
  rewrite insert_index_perm, IH. simpl.
  apply Permutation_cons_append.
Qed.

Lemma argsort_stable_upto_sorted n :
  StronglySorted Z.le ((λ i, v !!! i) <$> argsort_stable_upto v n).
Proof.
  induction n as [|n IH]; simpl; [constructor|]. by apply insert_index_sorted.
Qed.

End StableArgsort.

Lemma argsort_stable_spec : argsort_spec npysort.argsort_stable.
Proof.
  intros a. split; [apply argsort_stable_upto_perm|apply argsort_stable_upto_sorted].
Qed.

(** An argsort that keeps the promise everywhere keeps it on every query. *)
Lemma argsort_spec_ranks argsort self bits :
  argsort_spec argsort → argsort_ranks argsort self bits.
Proof. intros Hspec logits _. apply Hspec. Qed.

(** With the stable kind, rows at equal distance keep their index order. *)

Section StableKind.

Import npysort.
Variable v : list Z.

Lemma insert_index_before n l :
  Forall (λ j, j < n) l →
  StronglySorted (before v) l → StronglySorted (before v) (insert_index v n l).
Proof.
  induction l as [|j l IH]; simpl; intros Hlt Hs.
  - repeat constructor.
  - apply StronglySorted_inv in Hs as [Hs Hall].
    inversion_clear Hlt as [|? ? Hj Hrest].
    destruct (Z.ltb_spec (v !!! n) (v !!! j)) as [Hnj|Hjn].
    + constructor; [by constructor|].
      constructor; [by left|].
      eapply Forall_impl; [|exact Hall]. simpl. unfold before. intros; lia.
    + constructor; [by apply IH|].
      rewrite insert_index_perm. constructor; [|done].
      unfold before. lia.
Qed.

Lemma argsort_stable_upto_before n :
  Forall (λ j, j < n) (argsort_stable_upto v n) ∧
  StronglySorted (before v) (argsort_stable_upto v n).
Proof.
  induction n as [|n [Hlt Hs]]; simpl; [by repeat constructor|]. split.
  - rewrite insert_index_perm. constructor; [lia|].
    eapply Forall_impl; [|exact Hlt]. simpl. lia.
  - by apply insert_index_before.
Qed.

Lemma argsort_stable_is_stable : stable_ranking v (argsort_stable v).
Proof.
  intros p q i j Hp Hq Heq Hij.
  destruct (argsort_stable_upto_before (length v)) as [_ Hs].
  fold (argsort_stable v) in Hs.
  destruct (lt_eq_lt_dec p q) as [[Hlt| ->]|Hgt]; [done| |].
  - rewrite Hp in Hq. injection Hq as ->. lia.
  - pose proof (StronglySorted_lookup _ _ q p j i Hs Hq Hp Hgt) as Hji.
    assert (Hv : v !!! i = v !!! j).
    { by rewrite !list_lookup_total_alt, Heq. }
    unfold before in Hji. lia.
Qed.

End StableKind.

(** ** The default kind on two inputs

    The introsort path (22 values, one partition step) and the heapsort
    fallback (entered with the depth budget used up) both return the
    indices in ascending order of value. *)

Lemma ex_aquicksort_sorts :
  let v := [5; 3; 9; 1; 1; 7; 2; 8; 0; 4; 6; 3; 3; 10; 11; 2; 1; 0; 5; 9; 9; 4]%Z in
  npysort.aquicksort v
  = Some [17; 8; 3; 4; 16; 6; 15; 1; 11; 12; 21; 9; 18; 0; 10; 5; 7; 20; 2;
          19; 13; 14] ∧
  sorting_permutation v (npysort.argsort v).
Proof.
  intros v. split; [reflexivity|].
  change (npysort.argsort v)
    with [17; 8; 3; 4; 16; 6; 15; 1; 11; 12; 21; 9; 18; 0; 10; 5; 7; 20; 2;
          19; 13; 14].
  split.
  - by apply (bool_decide_unpack _).
  - subst v. repeat constructor; simpl; lia.
Qed.

Lemma ex_aheapsort_sorts :
  let v := [5; 3; 9; 1; 1; 7; 2; 8; 0; 4; 6; 3; 3; 10; 11; 2; 1; 0; 5; 9; 9; 4]%Z in
  ∃ ind, npysort.introsort v 23 23 (seq 0 22) 0 21 [] (-1) = Some ind ∧
         sorting_permutation v ind.
Proof.
  intros v. eexists. split; [vm_compute; reflexivity|]. split.
  - by apply (bool_decide_unpack _).
  - subst v. repeat constructor; simpl; lia.
Qed.

(** ** numpy facts *)

Lemma count_nonzero_nonneg row : (0 ≤ np.count_nonzero row)%Z.
Proof. unfold np.count_nonzero. lia. Qed.

Lemma not_equal_same_width B1 row :
  length row = length B1 → np.not_equal B1 row = Some (zip_with xorb B1 row).
Proof. intros H. unfold np.not_equal. by rewrite decide_True. Qed.


Lemma calculate_hamming_same_width B1 B2 :
  Forall (λ row, length row = length B1) B2 →
  calculate_hamming B1 B2
  = Some ((λ row, np.count_nonzero (zip_with xorb B1 row)) <$> B2).
Proof.
  intros Hw. unfold calculate_hamming. apply mapM_Some.
  induction Hw as [|row B2 Hrow _ IH]; simpl; constructor; [|done].
  by rewrite not_equal_same_width.
Qed.

Lemma calculate_hamming_nonneg B1 B2 logits :
  calculate_hamming B1 B2 = Some logits → Forall (λ d, (0 ≤ d)%Z) logits.
Proof.
  intros H. apply mapM_Some in H.
  induction H as [|row d B2 logits Hd _ IH]; constructor; [|done].
  destruct (np.not_equal B1 row); simplify_eq/=. apply count_nonzero_nonneg.
Qed.




(** ** Construction *)

Section Construction.

Variable launch : DatasetItem → list Annotation.

Lemma stack_Some arrays stacked :
  np.stack arrays = Some stacked →
  stacked = arrays ∧ arrays ≠ [] ∧
  ∃ n, Forall (λ row, length row = n) arrays.
Proof.
  destruct arrays as [|a rest]; simpl; [done|].
  destruct (forallb _ rest) eqn:Hall; [|done].
  intros [= <-]. split_and!; [done..|].
  exists (length a). constructor; [done|].
  apply list.Forall_forall. intros row Hrow.
  apply Nat.eqb_eq. apply (proj1 (forallb_forall _ _) Hall).
  by apply list_elem_of_In.
Qed.

Lemma stack_uniform arrays n :
  arrays ≠ [] → Forall (λ row, length row = n) arrays →
  np.stack arrays = Some arrays.
Proof.
  destruct arrays as [|a rest]; simpl; [done|]. intros _ Hall.
  inversion_clear Hall as [|? ? Ha Hrest].
  replace (forallb _ rest) with true; [done|].
  symmetry. apply forallb_forall. intros row Hrow.
  apply Nat.eqb_eq. apply list_elem_of_In in Hrow.
  rewrite list.Forall_forall in Hrest. rewrite Ha. by apply Hrest.
Qed.

(** What [__init__] does, in terms of the rows it collected. *)
Lemma init_unfold datasets topk :
  let updated := (compute_hash_key launch datasets
                    (select_uninferenced_dataset <$> datasets)).1 in
  let model := (compute_hash_key launch datasets
                    (select_uninferenced_dataset <$> datasets)).2 in
  let rows := collect updated in
  __init__ launch datasets topk =
    if decide (rows = []) then inl ValueError_database
    else match np.stack rows.*1 with
         | None => inl ValueError_stack
         | Some stacked => inr (mkExplorer model None topk stacked rows.*2)
         end.
Proof.
  intros updated model rows. unfold __init__.
  destruct (compute_hash_key _ _ _) as [ds m] eqn:Hc. simpl in *.
  subst updated model rows. fold (collect ds).
  destruct (collect ds) as [|r rows]; [done|]. by rewrite decide_False.
Qed.


End Construction.

(** ** Queries *)

Section Queries.

Variable launch : DatasetItem → list Annotation.
Variable infer_item : DatasetItem → option Annotation.
Variable infer_text : string → option Annotation.
Variable argsort : list Z → list nat.

Lemma text_model_frame self : same_index self (text_model self).2.
Proof. unfold text_model. by destruct (_text_model self). Qed.

Lemma item_query_frame query self :
  (_get_hash_key_from_item_query infer_item query self).2 = self.
Proof.
  unfold _get_hash_key_from_item_query.
  case_decide; [done|].
  destruct (filter _ _) as [|key [|key' keys]]; try done;
    unfold bind, get_self; by destruct (_model self).
Qed.

Lemma query_bits_frame query self :
  same_index self (query_bits infer_item infer_text query self).2.
Proof.
  unfold query_bits, bind. destruct query as [item|text|]; simpl.
  - pose proof (item_query_frame item self) as Hfr.
    destruct (_get_hash_key_from_item_query _ _ _) as [[e|key] self'].
    + simpl in *. by subst.
    + simpl in Hfr. subst self'.
      destruct key as [[hash_key|]|]; try done.
      by destruct (np.unpackbits hash_key).
  - unfold _get_hash_key_from_text_query, bind.
    pose proof (text_model_frame self) as Hfr.
    destruct (text_model self) as [[e|m] self']; simpl in *; [done|].
    destruct (infer_text text) as [[hash_key|]|]; try done.
    by destruct (np.unpackbits hash_key).
  - done.
Qed.

Lemma rank_frame database_keys bits topk self :
  (rank argsort database_keys bits topk self).2 = self.
Proof.
  unfold rank, bind, get_self.
  destruct (calculate_hamming _ _); simpl; [|done].
  by destruct (np.take_along _ _).
Qed.

Lemma explore_topk_frame query topk self :
  same_index self (explore_topk infer_item infer_text argsort query topk self).2.
Proof.
  unfold explore_topk, bind, get_self.
  pose proof (query_bits_frame query self) as Hfr.
  destruct (query_bits _ _ _ _) as [[e|bits] self']; simpl in *; [done|].
  by rewrite rank_frame.
Qed.


End Queries.

(** ** Hamming distance *)

Lemma length_filter_fmap_S (P : nat → Prop) `{∀ i, Decision (P i)} (l : list nat) :
  length (filter P (S <$> l)) = length (filter (λ i, P (S i)) l).
Proof.
  induction l as [|i l IH]; [done|]. rewrite fmap_cons, !filter_cons.
  destruct (decide (P (S i))); simpl; by rewrite IH.
Qed.

(** The count numpy takes is the count of differing positions. *)
Lemma count_nonzero_xor (A B : list bool) :
  length A = length B →
  np.count_nonzero (zip_with xorb A B) = Z.of_nat (differing_positions A B).
Proof.
  unfold np.count_nonzero, differing_positions. intros Hlen. f_equal.
  revert B Hlen. induction A as [|a A IH]; intros [|b B] Hlen; simplify_eq/=; [done|].
  rewrite <- fmap_S_seq, !filter_cons.
  pose proof (length_filter_fmap_S (λ i, (a :: A) !! i ≠ (b :: B) !! i)
                (seq 0 (length A))) as Htail.
  simpl in Htail.
  destruct a, b; simpl;
    repeat (case_decide; simplify_eq/=; try done);
    rewrite ?length_cons, Htail, <- (IH B) by done; done.
Qed.

Lemma differing_positions_self (A : list bool) : differing_positions A A = 0.
Proof.
  unfold differing_positions.
  induction (seq 0 (length A)) as [|i l IH]; [done|].
  rewrite filter_cons. by rewrite decide_False by (intros Hne; by apply Hne).
Qed.

(** C8. For two N-bit vectors A and B, [calculate_hamming A [B]] is the
    one-element vector holding the number of positions at which A and B
    differ; [calculate_hamming A [A]] is [[0]]; and every distance
    [calculate_hamming] returns, for any matrix, is non-negative. *)
Theorem calculate_hamming_counts_differing_bits (A B : list bool) :
  length A = length B →
  calculate_hamming A [B] = Some [Z.of_nat (differing_positions A B)] ∧
  calculate_hamming A [A] = Some [0%Z] ∧
  ∀ M logits, calculate_hamming A M = Some logits →
              Forall (λ d, (0 ≤ d)%Z) logits.
Proof.
  intros Hlen. split_and!.
  - rewrite calculate_hamming_same_width by (by repeat constructor).
    simpl. by rewrite count_nonzero_xor.
  - rewrite calculate_hamming_same_width by (by repeat constructor).
    simpl. by rewrite count_nonzero_xor, differing_positions_self.
  - intros M logits. apply calculate_hamming_nonneg.
Qed.

(** ** The worked index is ready *)


Lemma ex_crowd_index_ready : Ready ex_no_launch ex_crowd_index.
Proof. exists [ex_crowd], 10%Z. reflexivity. Qed.

Lemma calculate_hamming_counts_differing_bits_witness :
  length (ex_bits x01) = length (ex_bits x03) ∧
  calculate_hamming (ex_bits x01) [ex_bits x03]
  = Some [Z.of_nat (differing_positions (ex_bits x01) (ex_bits x03))].
Proof.
  split; [reflexivity|].
  apply (calculate_hamming_counts_differing_bits (ex_bits x01) (ex_bits x03)).
  reflexivity.
Defined.

(** ** Frame and determinism *)

(** C9. A query leaves the index as it was: the fingerprint matrix and the
    parallel item list are the same before and after [explore_topk], for
    every query and every k, whether the call returns or raises. *)
Theorem explore_topk_leaves_index_unchanged
    (infer_item : DatasetItem → option Annotation)
    (infer_text : string → option Annotation)
    (argsort : list Z → list nat)
    (query : Query) (topk : option Z) (self : Explorer) :
  let self' := (explore_topk infer_item infer_text argsort query topk self).2 in
  _database_keys self' = _database_keys self ∧
  _item_list self' = _item_list self.
Proof.
  intros self'.
  destruct (explore_topk_frame infer_item infer_text argsort query topk self)
    as (_ & _ & Hk & Hi).
  done.
Qed.

(** An item query that finds one fingerprint on the item uses it and
    touches nothing. *)
Lemma item_query_one_key infer_item item key self :
  hash_keys item = [key] →
  _get_hash_key_from_item_query infer_item item self = (inr (Some key), self).
Proof.
  unfold hash_keys, _get_hash_key_from_item_query. intros ->.
  by rewrite decide_False by (simpl; lia).
Qed.

(** C6. For a query item that carries exactly one fingerprint, two calls
    with the same k give the same outcome: the second call, made on the
    object as the first call left it, returns the same ordered sequence,
    whatever the inference runtime would answer at either time. *)
Theorem explore_topk_deterministic
    (infer_item infer_item' : DatasetItem → option Annotation)
    (infer_text infer_text' : string → option Annotation)
    (argsort : list Z → list nat)
    (item : DatasetItem) (key : Annotation) (topk : option Z) (self : Explorer) :
  hash_keys item = [key] →
  let first := explore_topk infer_item infer_text argsort (QItem item) topk self in
  let second := explore_topk infer_item' infer_text' argsort (QItem item) topk first.2 in
  first.2 = self ∧ second.1 = first.1.
Proof.
  intros Hkey.
  assert (Hcall : ∀ ii it,
    explore_topk ii it argsort (QItem item) topk self =
    match key with
    | HashKey hash_key =>
        match np.unpackbits hash_key with
        | Some bits => rank argsort (_database_keys self) bits
                            (topk_or_default self topk) self
        | None => (inl TypeError_unpackbits, self)
        end
    | OtherAnnotation _ => (inl ValueError_query, self)
    end).
  { intros ii it. unfold explore_topk, query_bits, bind, get_self.
    rewrite (item_query_one_key _ _ _ _ Hkey).
    destruct key as [hash_key|]; [|done].
    by destruct (np.unpackbits hash_key). }
  simpl. rewrite (Hcall infer_item infer_text).
  assert (Hself : (match key with
    | HashKey hash_key =>
        match np.unpackbits hash_key with
        | Some bits => rank argsort (_database_keys self) bits
                            (topk_or_default self topk) self
        | None => (inl TypeError_unpackbits, self)
        end
    | OtherAnnotation _ => (inl ValueError_query, self)
    end).2 = self).
  { destruct key as [hash_key|]; [|done].
    destruct (np.unpackbits hash_key); [|done]. apply rank_frame. }
  split; [done|]. by rewrite Hself, (Hcall infer_item' infer_text').
Qed.

Lemma explore_topk_deterministic_witness :
  hash_keys ex_query = [fingerprint x01] ∧
  (explore_topk ex_no_infer_item ex_no_infer_text npysort.argsort
     (QItem ex_query) (Some 2%Z) ex_index).1 = inr [ex_item_a; ex_item_b] ∧
  (explore_topk (λ _, Some (fingerprint xff)) (λ _, Some (fingerprint xff))
     npysort.argsort (QItem ex_query) (Some 2%Z)
     (explore_topk ex_no_infer_item ex_no_infer_text npysort.argsort
        (QItem ex_query) (Some 2%Z) ex_index).2).1
  = (explore_topk ex_no_infer_item ex_no_infer_text npysort.argsort
       (QItem ex_query) (Some 2%Z) ex_index).1.
Proof.
  split; [reflexivity|]. split; [reflexivity|].
  apply (explore_topk_deterministic ex_no_infer_item _ ex_no_infer_text _
           npysort.argsort ex_query (fingerprint x01) (Some 2%Z) ex_index).
  reflexivity.
Defined.

(** ** Ranking *)




Section Ranking.

Variable launch : DatasetItem → list Annotation.
Variable infer_item : DatasetItem → option Annotation.
Variable infer_text : string → option Annotation.
Variable argsort : list Z → list nat.





End Ranking.

(** ** The ranking theorems on the worked index, with the default kind of
    [np.argsort] *)









(** ** Where the code departs from the specification *)




(** ** Datasets: what the merge leaves alone *)

Lemma elem_of_put x item dataset : x ∈ put item dataset → x = item ∨ x ∈ dataset.
Proof.
  induction dataset as [|y dataset IH]; simpl.
  - intros ->%list_elem_of_singleton. by left.
  - case_decide.
    + intros [->|Hx]%elem_of_cons; [by left|]. right. by right.
    + intros [->|Hx]%elem_of_cons; [right; by left|].
      destruct (IH Hx) as [->|Hin]; [by left|]. right. by right.
Qed.

Lemma put_lookup_other item x dataset i :
  item_key x ≠ item_key item →
  dataset !! i = Some x → put item dataset !! i = Some x.
Proof.
  intros Hne. revert i. induction dataset as [|y dataset IH]; intros i Hi; [done|].
  simpl. destruct i as [|i]; simplify_eq/=.
  - by rewrite decide_False.
  - case_decide; [done|]. simpl. by apply IH.
Qed.

Lemma update_lookup_other dataset other i x :
  Forall (λ item, item_key x ≠ item_key item) other →
  dataset !! i = Some x → update dataset other !! i = Some x.
Proof.
  unfold update. intros Hall. revert dataset.
  induction Hall as [|item other Hne _ IH]; intros dataset Hi; [done|].
  simpl. apply IH. by apply put_lookup_other.
Qed.

Lemma elem_of_select_uninferenced x dataset :
  x ∈ select_uninferenced_dataset dataset →
  x ∈ dataset ∧ existsb is_HashKey (annotations x) = false.
Proof.
  unfold select_uninferenced_dataset.
  assert (Hgen : ∀ acc,
    x ∈ foldl (λ uninferenced_dataset item,
                 if negb (existsb is_HashKey (annotations item))
                 then put item uninferenced_dataset
                 else uninferenced_dataset) acc dataset →
    x ∈ acc ∨ (x ∈ dataset ∧ existsb is_HashKey (annotations x) = false)).
  { induction dataset as [|y dataset IH]; intros acc; simpl; [by left|].
    intros Hx. destruct (IH _ Hx) as [Hacc|[Hin Hno]].
    - destruct (existsb is_HashKey (annotations y)) eqn:Hy; simpl in Hacc.
      + by left.
      + destruct (elem_of_put _ _ _ Hacc) as [->|Hin]; [|by left].
        right. split; [by left|done].
    - right. split; [by right|done]. }
  intros Hx. destruct (Hgen [] Hx) as [Hnil|H]; [|done].
  by apply elem_of_nil in Hnil.
Qed.

Lemma elem_of_run_model launch x dataset :
  x ∈ run_model launch dataset → ∃ y, y ∈ dataset ∧ item_key x = item_key y.
Proof.
  unfold run_model. intros (y & -> & Hy)%list_elem_of_fmap. by exists y.
Qed.

Lemma NoDup_key_inj (dataset : Dataset) x y :
  NoDup (item_key <$> dataset) → x ∈ dataset → y ∈ dataset →
  item_key x = item_key y → x = y.
Proof.
  induction dataset as [|z dataset IH]; simpl; [by intros _ ?%elem_of_nil|].
  intros [Hz Hnd]%list.NoDup_cons [->|Hx]%elem_of_cons [->|Hy]%elem_of_cons Hk;
    [done| | |by apply IH].
  - exfalso. apply Hz. rewrite Hk. by apply list_elem_of_fmap_2.
  - exfalso. apply Hz. rewrite <- Hk. by apply list_elem_of_fmap_2.
Qed.

Lemma hash_keys_existsb item :
  hash_keys item ≠ [] → existsb is_HashKey (annotations item) = true.
Proof.
  unfold hash_keys. induction (annotations item) as [|a l IH]; [done|].
  rewrite filter_cons. simpl. destruct (is_HashKey a); [done|].
  rewrite decide_False by done. exact IH.
Qed.

Section Merge.

Variable launch : DatasetItem → list Annotation.

(** An item that already carries a fingerprint sits at the same place of
    its dataset after [compute_hash_key]. *)
Lemma compute_hash_key_keeps datasets d dataset i item :
  datasets !! d = Some dataset →
  dataset !! i = Some item →
  NoDup (item_key <$> dataset) →
  hash_keys item ≠ [] →
  ∃ dataset',
    (compute_hash_key launch datasets
       (select_uninferenced_dataset <$> datasets)).1 !! d = Some dataset' ∧
    dataset' !! i = Some item.
Proof using Type.
  intros Hd Hi Hnd Hkeys. unfold compute_hash_key. simpl.
  rewrite lookup_zip_with, Hd. simpl.
  rewrite !list_lookup_fmap, Hd. simpl.
  eexists. split; [done|].
  apply update_lookup_other; [|done].
  apply list.Forall_forall. intros x Hx Hk.
  assert (∃ y, y ∈ select_uninferenced_dataset dataset ∧
               item_key x = item_key y) as (y & Hy & Hxy).
  { case_decide; [by apply (elem_of_run_model launch)|by exists x]. }
  apply elem_of_select_uninferenced in Hy as [Hy Hno].
  assert (y = item) as ->.
  { apply (NoDup_key_inj dataset); [done..|by eapply list_elem_of_lookup_2|congruence]. }
  rewrite (hash_keys_existsb _ Hkeys) in Hno. done.
Qed.

Lemma collect_item_rows item rows :
  mapM np.unpackbits (payloads item) = Some rows →
  collect_item item = (λ row, (row, item)) <$> rows.
Proof using Type.
  unfold collect_item, payloads. generalize item at 2 4 as it.
  intros it. revert rows.
  induction (annotations item) as [|a l IH]; intros rows Hrows.
  - apply mapM_Some in Hrows. by inversion Hrows.
  - rewrite bind_cons. destruct a as [hash_key|label]; simpl in *.
    + destruct (np.unpackbits hash_key) as [row|]; [|done]. simpl in Hrows.
      destruct (mapM _ _) as [rows'|] eqn:Hrest; [|done].
      injection Hrows as <-. rewrite fmap_cons. f_equal. by apply IH.
    + by apply IH.
Qed.

Lemma payloads_length item : length (payloads item) = length (hash_keys item).
Proof using Type.
  unfold payloads, hash_keys. induction (annotations item) as [|a l IH]; [done|].
  rewrite filter_cons. destruct a; simpl; [|done]. by f_equal.
Qed.

End Merge.

(** ** Construction: what is indexed, and when it fails *)

Section Indexing.

Variable launch : DatasetItem → list Annotation.

(** C10. An item of an input dataset that carries m ≥ 1 [HashKey]
    annotations, all of which unpack, contributes m consecutive rows to
    the matrix, one per annotation and in annotation order, and m
    references to itself at the same places of the item list. It is
    neither rejected nor reduced to one row. *)
Theorem init_indexes_item_once_per_fingerprint
    datasets topk d dataset i item rows :
  datasets !! d = Some dataset →
  dataset !! i = Some item →
  NoDup (item_key <$> dataset) →
  mapM np.unpackbits (payloads item) = Some rows →
  1 ≤ length rows →
  length rows = length (hash_keys item) ∧
  ∃ pre post,
    collect (compute_hash_key launch datasets
               (select_uninferenced_dataset <$> datasets)).1
    = pre ++ ((λ row, (row, item)) <$> rows) ++ post ∧
    ∀ self, __init__ launch datasets topk = inr self →
      _database_keys self = pre.*1 ++ rows ++ post.*1 ∧
      _item_list self = pre.*2 ++ replicate (length rows) item ++ post.*2.
Proof using Type.
  intros Hd Hi Hnd Hrows Hm.
  assert (Hlen : length rows = length (hash_keys item)).
  { rewrite <- payloads_length. symmetry. by eapply length_mapM. }
  split; [done|].
  destruct (compute_hash_key_keeps launch datasets d dataset i item Hd Hi Hnd)
    as (dataset' & Hd' & Hi').
  { intros Hnil. rewrite Hnil in Hlen. simpl in Hlen. lia. }
  set (updated := (compute_hash_key launch datasets
                     (select_uninferenced_dataset <$> datasets)).1) in *.
  exists (collect (take d updated) ++ (take i dataset' ≫= collect_item)),
         ((drop (S i) dataset' ≫= collect_item) ++ collect (drop (S d) updated)).
  assert (Hcollect :
    collect updated
    = (collect (take d updated) ++ (take i dataset' ≫= collect_item))
      ++ ((λ row, (row, item)) <$> rows)
      ++ ((drop (S i) dataset' ≫= collect_item) ++ collect (drop (S d) updated))).
  { rewrite <- (take_drop_middle updated d dataset' Hd') at 1.
    unfold collect. rewrite bind_app, bind_cons.
    rewrite <- (take_drop_middle dataset' i item Hi') at 1.
    rewrite bind_app, bind_cons, (collect_item_rows item rows Hrows).
    by rewrite <- !app_assoc. }
  split; [done|].
  intros self Hinit.
  pose proof (init_unfold launch datasets topk) as Hunfold.
  cbv zeta in Hunfold. fold updated in Hunfold. rewrite Hunfold in Hinit.
  case_decide; [done|].
  destruct (np.stack _) as [stacked|] eqn:Hst; [|done].
  apply stack_Some in Hst as (-> & _ & _). injection Hinit as <-.
  cbn [_database_keys _item_list].
  rewrite Hcollect, !fmap_app, <- !list_fmap_compose.
  split; f_equal; f_equal.
  - by rewrite list_fmap_id.
  - clear. induction rows as [|row rows IH]; [done|]. simpl. by f_equal.
Qed.

(** C1, as the code has it. An item that carries more than one [HashKey]
    annotation makes [explore_topk] raise the ambiguity error when it is
    the query, for every k and on every index; [__init__] never raises
    that error, whatever its datasets hold. *)
Theorem ambiguous_fingerprint_raised_at_query_only
    (infer_item : DatasetItem → option Annotation)
    (infer_text : string → option Annotation)
    (argsort : list Z → list nat)
    (item : DatasetItem) (topk : option Z) (self : Explorer)
    (datasets : list Dataset) (default_topk : Z) :
  1 < length (hash_keys item) →
  explore_topk infer_item infer_text argsort (QItem item) topk self
  = (inl DatumaroError_ambiguous, self) ∧
  __init__ launch datasets default_topk ≠ inl DatumaroError_ambiguous.
Proof using Type.
  intros Hmany. split.
  - unfold explore_topk, query_bits, bind, get_self. simpl.
    unfold _get_hash_key_from_item_query. fold (hash_keys item).
    by rewrite decide_True.
  - rewrite init_unfold. simpl. case_decide; [done|].
    by destruct (np.stack _).
Qed.

(** C4. [__init__] raises its "Database should have hash_key" error
    exactly when the walk over the datasets, after inference and merge,
    collected no row. When it collected at least one row, and the rows
    have one width as fingerprints of one fixed length do, it returns a
    ready index with one item per row. *)
Theorem init_fails_iff_no_rows datasets topk :
  let rows := collect (compute_hash_key launch datasets
                         (select_uninferenced_dataset <$> datasets)).1 in
  (__init__ launch datasets topk = inl ValueError_database ↔ rows = []) ∧
  (rows ≠ [] →
   (∃ n, Forall (λ row, length row.1 = n) rows) →
   ∃ self, __init__ launch datasets topk = inr self ∧
           Ready launch self ∧
           number_of_items self = length rows).
Proof using Type.
  intros rows. pose proof (init_unfold launch datasets topk) as Hinit.
  cbv zeta in Hinit. fold rows in Hinit. split.
  - rewrite Hinit. case_decide as Hrows; [done|].
    split; [|done]. by destruct (np.stack _).
  - intros Hne [n Hn].
    assert (Hst : np.stack rows.*1 = Some rows.*1).
    { apply (stack_uniform _ n).
      - by destruct rows.
      - by apply Forall_fmap. }
    rewrite Hst in Hinit. rewrite decide_False in Hinit by done.
    eexists. split; [exact Hinit|]. split.
    + by exists datasets, topk.
    + unfold number_of_items. simpl. by rewrite length_fmap.
Qed.

End Indexing.

(** ** The construction theorems on concrete datasets *)

Lemma init_indexes_item_once_per_fingerprint_witness :
  [[ex_item_two; ex_item_bare]] !! 0 = Some [ex_item_two; ex_item_bare] ∧
  [ex_item_two; ex_item_bare] !! 0 = Some ex_item_two ∧
  NoDup (item_key <$> [ex_item_two; ex_item_bare]) ∧
  mapM np.unpackbits (payloads ex_item_two) = Some [ex_bits x00; ex_bits x0f] ∧
  1 ≤ length [ex_bits x00; ex_bits x0f] ∧
  __init__ ex_no_launch [[ex_item_two; ex_item_bare]] 10
  = inr (mkExplorer (Some "clip_visual_ViT-B_32") None 10
           [ex_bits x00; ex_bits x0f] [ex_item_two; ex_item_two]) ∧
  (length [ex_bits x00; ex_bits x0f] = length (hash_keys ex_item_two) ∧
   ∃ pre post,
     collect (compute_hash_key ex_no_launch [[ex_item_two; ex_item_bare]]
                (select_uninferenced_dataset <$> [[ex_item_two; ex_item_bare]])).1
     = pre ++ ((λ row, (row, ex_item_two)) <$> [ex_bits x00; ex_bits x0f]) ++ post ∧
     ∀ self, __init__ ex_no_launch [[ex_item_two; ex_item_bare]] 10 = inr self →
       _database_keys self = pre.*1 ++ [ex_bits x00; ex_bits x0f] ++ post.*1 ∧
       _item_list self
       = pre.*2 ++ replicate (length [ex_bits x00; ex_bits x0f]) ex_item_two
         ++ post.*2).
Proof.
  assert (Hnd : NoDup (item_key <$> [ex_item_two; ex_item_bare])).
  { by apply (bool_decide_unpack _). }
  assert (Hm : 1 ≤ length [ex_bits x00; ex_bits x0f]) by (simpl; lia).
  split_and!; [reflexivity|reflexivity|exact Hnd|reflexivity|exact Hm|reflexivity| |].
  - apply (init_indexes_item_once_per_fingerprint ex_no_launch
             [[ex_item_two; ex_item_bare]] 10 0 [ex_item_two; ex_item_bare]
             0 ex_item_two [ex_bits x00; ex_bits x0f]
             eq_refl eq_refl Hnd eq_refl Hm).
  - apply (init_indexes_item_once_per_fingerprint ex_no_launch
             [[ex_item_two; ex_item_bare]] 10 0 [ex_item_two; ex_item_bare]
             0 ex_item_two [ex_bits x00; ex_bits x0f]
             eq_refl eq_refl Hnd eq_refl Hm).
Defined.

(** An item indexed twice can take two ranks of one result. *)
Lemma ex_item_two_takes_two_ranks :
  explore_topk ex_no_infer_item ex_no_infer_text npysort.argsort
    (QItem ex_query) (Some 2%Z)
    (mkExplorer (Some "clip_visual_ViT-B_32") None 10
       [ex_bits x00; ex_bits x0f] [ex_item_two; ex_item_two])
  = (inr [ex_item_two; ex_item_two],
     mkExplorer (Some "clip_visual_ViT-B_32") None 10
       [ex_bits x00; ex_bits x0f] [ex_item_two; ex_item_two]).
Proof. reflexivity. Qed.

Lemma ambiguous_fingerprint_raised_at_query_only_witness :
  1 < length (hash_keys ex_item_two) ∧
  explore_topk ex_no_infer_item ex_no_infer_text npysort.argsort
    (QItem ex_item_two) (Some 2%Z) ex_index
  = (inl DatumaroError_ambiguous, ex_index) ∧
  __init__ ex_no_launch [[ex_item_two]] 10 ≠ inl DatumaroError_ambiguous.
Proof.
  assert (Hmany : 1 < length (hash_keys ex_item_two)) by (simpl; lia).
  split; [exact Hmany|].
  exact (ambiguous_fingerprint_raised_at_query_only ex_no_launch
           ex_no_infer_item ex_no_infer_text npysort.argsort ex_item_two
           (Some 2%Z) ex_index [[ex_item_two]] 10 Hmany).
Defined.

(** C1 fails on the code at construction: a dataset whose only item carries
    two fingerprints is indexed, with one row per fingerprint, and no
    error is raised. *)
Lemma init_accepts_two_fingerprints :
  length (hash_keys ex_item_two) = 2 ∧
  __init__ ex_no_launch [[ex_item_two]] 10
  = inr (mkExplorer None None 10 [ex_bits x00; ex_bits x0f]
           [ex_item_two; ex_item_two]).
Proof. split; reflexivity. Qed.

Lemma init_fails_iff_no_rows_witness :
  collect (compute_hash_key ex_no_launch [ex_dataset]
             (select_uninferenced_dataset <$> [ex_dataset])).1 ≠ [] ∧
  (∃ n, Forall (λ row : list bool * DatasetItem, length row.1 = n)
          (collect (compute_hash_key ex_no_launch [ex_dataset]
                      (select_uninferenced_dataset <$> [ex_dataset])).1)) ∧
  (__init__ ex_no_launch [[ex_item_bare]] 10 = inl ValueError_database ↔
   collect (compute_hash_key ex_no_launch [[ex_item_bare]]
              (select_uninferenced_dataset <$> [[ex_item_bare]])).1 = []) ∧
  ∃ self, __init__ ex_no_launch [ex_dataset] 10 = inr self ∧
          Ready ex_no_launch self ∧
          number_of_items self
          = length (collect (compute_hash_key ex_no_launch [ex_dataset]
                      (select_uninferenced_dataset <$> [ex_dataset])).1).
Proof.
  assert (Hne : collect (compute_hash_key ex_no_launch [ex_dataset]
             (select_uninferenced_dataset <$> [ex_dataset])).1 ≠ []) by done.
  assert (Hw : ∃ n, Forall (λ row : list bool * DatasetItem, length row.1 = n)
          (collect (compute_hash_key ex_no_launch [ex_dataset]
                      (select_uninferenced_dataset <$> [ex_dataset])).1)).
  { exists 8. repeat constructor. }
  split_and!; [exact Hne|exact Hw| |].
  - apply (init_fails_iff_no_rows ex_no_launch [[ex_item_bare]] 10).
  - exact (proj2 (init_fails_iff_no_rows ex_no_launch [ex_dataset] 10) Hne Hw).
Defined.

(** * Further properties of the module *)

(** ** Which items are sent to the model *)

Lemma existsb_hash_keys item :
  existsb is_HashKey (annotations item) = false ↔ hash_keys item = [].
Proof.
  unfold hash_keys. induction (annotations item) as [|a l IH]; [done|].
  rewrite filter_cons. simpl. destruct (is_HashKey a); simpl.
  - split; done.
  - exact IH.
Qed.

Lemma put_fresh item dataset :
  Forall (λ x, item_key x ≠ item_key item) dataset →
  put item dataset = dataset ++ [item].
Proof.
  induction 1 as [|x dataset Hx _ IH]; simpl; [done|].
  rewrite decide_False by done. by rewrite IH.
Qed.

Lemma select_uninferenced_from acc dataset :
  NoDup (item_key <$> (acc ++ dataset)) →
  foldl (λ uninferenced_dataset item,
           if negb (existsb is_HashKey (annotations item))
           then put item uninferenced_dataset
           else uninferenced_dataset) acc dataset
  = acc ++ filter (λ item, hash_keys item = []) dataset.
Proof.
  revert acc. induction dataset as [|x dataset IH]; intros acc Hnd; simpl.
  - by rewrite app_nil_r.
  - rewrite filter_cons.
    destruct (existsb is_HashKey (annotations x)) eqn:Hx; simpl.
    + rewrite decide_False.
      * apply IH. rewrite fmap_app, fmap_cons in Hnd.
        apply list.NoDup_app in Hnd as (Hacc & Hdis & Hrest).
        apply list.NoDup_cons in Hrest as [_ Hrest].
        rewrite fmap_app. apply list.NoDup_app. split_and!; [done| |done].
        intros k Hk Hk'. apply (Hdis k Hk). by right.
      * intros Hnil. apply existsb_hash_keys in Hnil. congruence.
    + rewrite decide_True by by apply existsb_hash_keys.
      rewrite put_fresh.
      * rewrite IH; [by rewrite <- app_assoc|]. by rewrite <- app_assoc.
      * rewrite fmap_app, fmap_cons in Hnd.
        apply list.NoDup_app in Hnd as (_ & Hdis & _).
        apply list.Forall_forall. intros y Hy Hk.
        apply (Hdis (item_key y)); [by apply list_elem_of_fmap_2|].
        rewrite Hk. by left.
Qed.

Lemma select_uninferenced_is_filter (dataset : Dataset) :
  NoDup (item_key <$> dataset) →
  select_uninferenced_dataset dataset
  = filter (λ item, hash_keys item = []) dataset.
Proof.
  intros Hnd. unfold select_uninferenced_dataset.
  by rewrite select_uninferenced_from.
Qed.

(** X1. On a dataset whose items have distinct identities,
    [select_uninferenced_dataset] returns, in dataset order, exactly the
    items that carry no [HashKey] annotation. *)
Theorem select_uninferenced_dataset_filters (dataset : Dataset) :
  NoDup (item_key <$> dataset) →
  select_uninferenced_dataset dataset
  = filter (λ item, hash_keys item = []) dataset.
Proof.
  intros Hnd. unfold select_uninferenced_dataset.
  rewrite (select_uninferenced_from [] dataset); [done|].
  by rewrite app_nil_l.
Qed.

Lemma select_uninferenced_dataset_filters_witness :
  NoDup (item_key <$> ex_mixed) ∧
  select_uninferenced_dataset ex_mixed
  = filter (λ item, hash_keys item = []) ex_mixed.
Proof.
  assert (Hnd : NoDup (item_key <$> ex_mixed)) by by apply (bool_decide_unpack _).
  split; [exact Hnd|]. exact (select_uninferenced_dataset_filters ex_mixed Hnd).
Defined.

Lemma update_head y dataset other :
  Forall (λ z, item_key y ≠ item_key z) other →
  update (y :: dataset) other = y :: update dataset other.
Proof.
  unfold update. intros Hall. revert dataset.
  induction Hall as [|z other Hz _ IH]; intros dataset; [done|].
  simpl. rewrite decide_False by done. apply IH.
Qed.

Lemma run_model_empty_or_not launch (dataset : Dataset) :
  (if decide (0 < length dataset) then run_model launch dataset else dataset)
  = run_model launch dataset.
Proof. case_decide; [done|]. destruct dataset; [done|simpl in *; lia]. Qed.

Lemma select_uninferenced_nil (dataset : Dataset) :
  select_uninferenced_dataset dataset = [] ↔
  Forall (λ item, hash_keys item ≠ []) dataset.
Proof.
  unfold select_uninferenced_dataset.
  assert (Hgen : ∀ acc,
    foldl (λ uninferenced_dataset item,
             if negb (existsb is_HashKey (annotations item))
             then put item uninferenced_dataset
             else uninferenced_dataset) acc dataset = [] ↔
    acc = [] ∧ Forall (λ item, hash_keys item ≠ []) dataset).
  { induction dataset as [|x dataset IH]; intros acc; simpl.
    - split; [by intros ->|by intros [-> _]].
    - rewrite IH. destruct (existsb is_HashKey (annotations x)) eqn:Hx; simpl.
      + split.
        * intros [-> Hall]. split; [done|]. constructor; [|done].
          intros Hnil%existsb_hash_keys. congruence.
        * intros [-> Hall]. by inversion_clear Hall.
      + split.
        * intros [Hput _]. by destruct acc; simpl in Hput; [|case_decide].
        * intros [_ Hall]. inversion_clear Hall as [|? ? Hk _].
          by apply existsb_hash_keys in Hx. }
  rewrite Hgen. split; [by intros [_ ?]|done].
Qed.

Section Inference.

Variable launch : DatasetItem → list Annotation.

Lemma update_inferred (dataset : Dataset) :
  NoDup (item_key <$> dataset) →
  update dataset
    (run_model launch (filter (λ item, hash_keys item = []) dataset))
  = infer_missing launch <$> dataset.
Proof using Type.
  induction dataset as [|x dataset IH]; [done|].
  rewrite fmap_cons. intros [Hx Hnd]%list.NoDup_cons.
  assert (Hfresh : ∀ y, item_key y = item_key x →
    Forall (λ z, item_key y ≠ item_key z)
      (run_model launch (filter (λ item, hash_keys item = []) dataset))).
  { intros y Hy. apply list.Forall_forall. intros z Hz Hk.
    apply elem_of_run_model in Hz as (w & Hw & Hzw).
    apply list_elem_of_filter in Hw as [_ Hw].
    apply Hx. rewrite <- Hy, Hk, Hzw. by apply list_elem_of_fmap_2. }
  rewrite fmap_cons. unfold infer_missing at 1.
  destruct (decide (hash_keys x = [])) as [Hk|Hk].
  - rewrite filter_cons_True by done.
    unfold run_model at 1. rewrite fmap_cons. fold (run_model launch).
    unfold update at 1. simpl. rewrite decide_True by done.
    fold (update (mkItem (id x) (subset x) (annotations x ++ launch x) :: dataset)
            (run_model launch (filter (λ item, hash_keys item = []) dataset))).
    rewrite update_head by by apply Hfresh. f_equal. by apply IH.
  - rewrite filter_cons_False by done.
    rewrite update_head by by apply Hfresh. by rewrite IH.
Qed.

Lemma compute_hash_key_updated (datasets : list Dataset) :
  Forall (λ dataset : Dataset, NoDup (item_key <$> dataset)) datasets →
  (compute_hash_key launch datasets
     (select_uninferenced_dataset <$> datasets)).1
  = (λ dataset : Dataset, infer_missing launch <$> dataset) <$> datasets.
Proof using Type.
  intros Hnd. unfold compute_hash_key. simpl.
  rewrite <- list_fmap_compose, zip_with_fmap_r, zip_with_diag.
  apply Forall_fmap_ext. eapply Forall_impl; [|exact Hnd].
  intros dataset Hd. simpl. rewrite run_model_empty_or_not.
  rewrite select_uninferenced_is_filter by done.
  by apply update_inferred.
Qed.

Lemma compute_hash_key_model (datasets : list Dataset) :
  (compute_hash_key launch datasets
     (select_uninferenced_dataset <$> datasets)).2 = None ↔
  Forall (Forall (λ item, hash_keys item ≠ [])) datasets.
Proof using Type.
  unfold compute_hash_key. simpl. destruct (existsb _ _) eqn:Hex.
  - split; [done|]. intros Hall. exfalso.
    apply existsb_exists in Hex as (d & Hd & Hlen).
    apply list_elem_of_In, list_elem_of_fmap in Hd as (dataset & -> & Hin).
    rewrite list.Forall_forall in Hall.
    rewrite (proj2 (select_uninferenced_nil dataset) (Hall dataset Hin)) in Hlen.
    done.
  - split; [|done]. intros _. apply list.Forall_forall. intros dataset Hin.
    apply select_uninferenced_nil.
    destruct (select_uninferenced_dataset dataset) eqn:Hsel; [done|].
    assert (existsb (λ dataset, bool_decide (0 < length dataset))
              (select_uninferenced_dataset <$> datasets) = true); [|congruence].
    apply existsb_exists. exists (select_uninferenced_dataset dataset).
    split; [by apply list_elem_of_In, list_elem_of_fmap_2|].
    rewrite Hsel. apply bool_decide_eq_true. simpl. lia.
Qed.

(** X2. [compute_hash_key], given the uninferenced parts that [__init__]
    selects, runs the model on exactly the items that carry no [HashKey]:
    each of them gets the model's annotations attached, every other item
    and the order of every dataset are left as they were. The visual
    model is left unloaded exactly when no item lacked a [HashKey]. *)
Theorem compute_hash_key_infers_missing (datasets : list Dataset) :
  Forall (λ dataset : Dataset, NoDup (item_key <$> dataset)) datasets →
  let result := compute_hash_key launch datasets
                  (select_uninferenced_dataset <$> datasets) in
  result.1 = (λ dataset : Dataset, infer_missing launch <$> dataset) <$> datasets ∧
  (result.2 = None ↔
   Forall (Forall (λ item, hash_keys item ≠ [])) datasets).
Proof using Type.
  intros Hnd. split;
    [by apply compute_hash_key_updated|apply compute_hash_key_model].
Qed.

Lemma infer_missing_keyed item :
  existsb is_HashKey (launch item) = true →
  hash_keys (infer_missing launch item) ≠ [].
Proof using Type.
  intros Hl. unfold infer_missing. case_decide as Hk; [|done].
  intros Hnil%existsb_hash_keys. simpl in Hnil.
  rewrite existsb_app, Hl, orb_true_r in Hnil. done.
Qed.

(** X3. Fingerprints are computed once. When the model yields a [HashKey]
    for every item, the datasets that [compute_hash_key] returns have
    nothing left to infer: passing them through [compute_hash_key] again
    changes no dataset and does not load the model. *)
Theorem compute_hash_key_caches (datasets : list Dataset) :
  Forall (λ dataset : Dataset, NoDup (item_key <$> dataset)) datasets →
  (∀ item, existsb is_HashKey (launch item) = true) →
  let updated := (compute_hash_key launch datasets
                    (select_uninferenced_dataset <$> datasets)).1 in
  Forall (λ dataset, select_uninferenced_dataset dataset = []) updated ∧
  compute_hash_key launch updated (select_uninferenced_dataset <$> updated)
  = (updated, None).
Proof using Type.
  intros Hnd Hlaunch updated.
  assert (Hkeyed : Forall (Forall (λ item, hash_keys item ≠ [])) updated).
  { subst updated. rewrite compute_hash_key_updated by done.
    apply Forall_fmap, Forall_true. intros dataset. simpl.
    apply Forall_fmap, Forall_true. intros item. simpl.
    by apply infer_missing_keyed. }
  assert (Hsel : Forall (λ dataset, select_uninferenced_dataset dataset = [])
                   updated).
  { eapply Forall_impl; [|exact Hkeyed]. intros dataset.
    apply select_uninferenced_nil. }
  split; [done|].
  apply injective_projections.
  - unfold compute_hash_key. simpl.
    rewrite <- list_fmap_compose, zip_with_fmap_r, zip_with_diag.
    rewrite <- (list_fmap_id updated) at 2.
    apply Forall_fmap_ext. eapply Forall_impl; [|exact Hsel].
    intros dataset Hd. simpl. by rewrite Hd.
  - by apply compute_hash_key_model.
Qed.

End Inference.

Lemma compute_hash_key_infers_missing_witness :
  Forall (λ dataset : Dataset, NoDup (item_key <$> dataset)) [ex_mixed] ∧
  (compute_hash_key ex_launch [ex_mixed]
     (select_uninferenced_dataset <$> [ex_mixed])).1
  = (λ dataset : Dataset, infer_missing ex_launch <$> dataset) <$> [ex_mixed].
Proof.
  assert (Hnd : Forall (λ dataset : Dataset, NoDup (item_key <$> dataset))
                  [ex_mixed]).
  { constructor; [|constructor]. by apply (bool_decide_unpack _). }
  split; [exact Hnd|].
  exact (proj1 (compute_hash_key_infers_missing ex_launch [ex_mixed] Hnd)).
Defined.

Lemma compute_hash_key_caches_witness :
  Forall (λ dataset : Dataset, NoDup (item_key <$> dataset)) [ex_mixed] ∧
  (∀ item, existsb is_HashKey (ex_launch item) = true) ∧
  compute_hash_key ex_launch
    (compute_hash_key ex_launch [ex_mixed]
       (select_uninferenced_dataset <$> [ex_mixed])).1
    (select_uninferenced_dataset <$>
       (compute_hash_key ex_launch [ex_mixed]
          (select_uninferenced_dataset <$> [ex_mixed])).1)
  = ((compute_hash_key ex_launch [ex_mixed]
        (select_uninferenced_dataset <$> [ex_mixed])).1, None).
Proof.
  assert (Hnd : Forall (λ dataset : Dataset, NoDup (item_key <$> dataset))
                  [ex_mixed]).
  { constructor; [|constructor]. by apply (bool_decide_unpack _). }
  assert (Hl : ∀ item, existsb is_HashKey (ex_launch item) = true)
    by (intros item; reflexivity).
  split; [exact Hnd|]. split; [exact Hl|].
  exact (proj2 (compute_hash_key_caches ex_launch [ex_mixed] Hnd Hl)).
Defined.

(** ** What [__init__] leaves on the object *)

Section Built.

Variable launch : DatasetItem → list Annotation.
Variable infer_item : DatasetItem → option Annotation.
Variable infer_text : string → option Annotation.
Variable argsort : list Z → list nat.

Lemma init_fields datasets topk self :
  __init__ launch datasets topk = inr self →
  let result := compute_hash_key launch datasets
                  (select_uninferenced_dataset <$> datasets) in
  collect result.1 ≠ [] ∧
  self = mkExplorer result.2 None topk (collect result.1).*1 (collect result.1).*2.
Proof using Type.
  intros Hinit result.
  pose proof (init_unfold launch datasets topk) as Hunfold.
  cbv zeta in Hunfold. fold result in Hunfold. rewrite Hunfold in Hinit.
  case_decide; [done|].
  destruct (np.stack _) as [stacked|] eqn:Hst; [|done].
  apply stack_Some in Hst as (-> & _ & _). by injection Hinit as <-.
Qed.

(** X4. When every item of every dataset already carried a [HashKey],
    [__init__] never loads the visual model, and a later query with an
    item that carries no [HashKey] raises [AttributeError] (the method
    reads [self._model], not the [model] property) instead of inferring a
    fingerprint; the object is left as it was. *)
Theorem item_query_without_key_needs_loaded_model
    datasets topk self query k :
  __init__ launch datasets topk = inr self →
  Forall (Forall (λ item, hash_keys item ≠ [])) datasets →
  hash_keys query = [] →
  _model self = None ∧
  explore_topk infer_item infer_text argsort (QItem query) k self
  = (inl AttributeError_model, self).
Proof using Type.
  intros Hinit Hkeyed Hquery.
  destruct (init_fields _ _ _ Hinit) as [_ Hself].
  assert (Hmodel : _model self = None).
  { rewrite Hself. cbn [_model]. by apply compute_hash_key_model. }
  split; [done|].
  unfold explore_topk, query_bits, bind, get_self. simpl.
  unfold _get_hash_key_from_item_query. fold (hash_keys query).
  rewrite Hquery. simpl. unfold bind, get_self. by rewrite Hmodel.
Qed.

End Built.

Lemma item_query_without_key_needs_loaded_model_witness :
  __init__ ex_no_launch [ex_dataset] 10 = inr ex_index ∧
  Forall (Forall (λ item, hash_keys item ≠ [])) [ex_dataset] ∧
  hash_keys ex_item_bare = [] ∧
  _model ex_index = None ∧
  explore_topk ex_no_infer_item ex_no_infer_text npysort.argsort
    (QItem ex_item_bare) (Some 2%Z) ex_index
  = (inl AttributeError_model, ex_index).
Proof.
  assert (Hinit : __init__ ex_no_launch [ex_dataset] 10 = inr ex_index)
    by reflexivity.
  assert (Hkeyed : Forall (Forall (λ item, hash_keys item ≠ [])) [ex_dataset]).
  { repeat constructor; done. }
  assert (Hq : hash_keys ex_item_bare = []) by reflexivity.
  split_and!; [done..| |];
    apply (item_query_without_key_needs_loaded_model ex_no_launch
             ex_no_infer_item ex_no_infer_text npysort.argsort
             [ex_dataset] 10 ex_index ex_item_bare (Some 2%Z) Hinit Hkeyed Hq).
Defined.

(** ** The rows and the items of a built index *)

Lemma elem_of_collect_item row x item :
  (row, x) ∈ collect_item item ↔
  x = item ∧ ∃ hash_key, HashKey hash_key ∈ annotations item ∧
                         np.unpackbits hash_key = Some row.
Proof.
  unfold collect_item. rewrite list_elem_of_bind. split.
  - intros (a & Hin & Ha). destruct a as [hash_key|label].
    + destruct (np.unpackbits hash_key) as [bits|] eqn:Hbits.
      * apply list_elem_of_singleton in Hin. simplify_eq. eauto.
      * by apply elem_of_nil in Hin.
    + by apply elem_of_nil in Hin.
  - intros (-> & hash_key & Hin & Hbits). exists (HashKey hash_key).
    rewrite Hbits. split; [by apply list_elem_of_singleton|done].
Qed.

Lemma elem_of_collect row x (datasets : list Dataset) :
  (row, x) ∈ collect datasets ↔
  ∃ dataset, dataset ∈ datasets ∧ x ∈ dataset ∧
    ∃ hash_key, HashKey hash_key ∈ annotations x ∧
                np.unpackbits hash_key = Some row.
Proof.
  unfold collect. rewrite list_elem_of_bind. split.
  - intros (dataset & Hin & Hd). apply list_elem_of_bind in Hin as (item & Hin & Hi).
    apply elem_of_collect_item in Hin as (-> & Hkey). eauto.
  - intros (dataset & Hd & Hx & Hkey). exists dataset. split; [|done].
    apply list_elem_of_bind. exists x. split; [|done].
    by apply elem_of_collect_item.
Qed.

Section Rows.

Variable launch : DatasetItem → list Annotation.

(** X5. On the object [__init__] returns, the matrix and the item list run
    in parallel: there is at least one row, there are as many rows as item
    references, and row i is the unpacked payload of a [HashKey] annotation
    of the item at place i. The configured k is the one passed in and no
    text model is loaded. *)
Theorem init_rows_belong_to_items datasets topk self :
  __init__ launch datasets topk = inr self →
  _topk self = topk ∧ _text_model self = None ∧
  0 < length (_item_list self) ∧
  length (_database_keys self) = length (_item_list self) ∧
  ∀ i row, _database_keys self !! i = Some row →
    ∃ item hash_key,
      _item_list self !! i = Some item ∧
      HashKey hash_key ∈ annotations item ∧
      np.unpackbits hash_key = Some row.
Proof using Type.
  intros Hinit. destruct (init_fields _ _ _ _ Hinit) as [Hne ->].
  cbn [_topk _text_model _database_keys _item_list].
  set (rows := collect _) in *.
  split_and!; [done..| | |].
  - rewrite length_fmap. destruct rows; [done|simpl; lia].
  - by rewrite !length_fmap.
  - intros i row Hrow.
    rewrite list_lookup_fmap in Hrow.
    destruct (rows !! i) as [[row' item]|] eqn:Hi; [|done].
    injection Hrow as <-.
    assert (Hin : (row', item) ∈ rows) by by eapply list_elem_of_lookup_2.
    apply elem_of_collect in Hin as (_ & _ & _ & hash_key & Hkey & Hbits).
    exists item, hash_key. split_and!; [|done..].
    by rewrite list_lookup_fmap, Hi.
Qed.

(** X6. The items of a built index are exactly the items of the datasets,
    as [compute_hash_key] left them, that carry a [HashKey] annotation
    which unpacks; an item whose [HashKey]s all fail to unpack, or that has
    none, is left out without an error. *)
Theorem init_indexes_exactly_readable_items datasets topk self x :
  __init__ launch datasets topk = inr self →
  x ∈ _item_list self ↔
  ∃ dataset,
    dataset ∈ (compute_hash_key launch datasets
                 (select_uninferenced_dataset <$> datasets)).1 ∧
    x ∈ dataset ∧ has_readable_key x.
Proof using Type.
  intros Hinit. destruct (init_fields _ _ _ _ Hinit) as [_ ->].
  cbn [_item_list]. rewrite list_elem_of_fmap. split.
  - intros ([row item] & -> & Hin). simpl.
    apply elem_of_collect in Hin as (dataset & Hd & Hx & hash_key & Hk & Hb).
    exists dataset. split_and!; [done..|]. exists hash_key. by rewrite Hb.
  - intros (dataset & Hd & Hx & hash_key & Hk & [row Hb]).
    exists (row, x). split; [done|]. apply elem_of_collect. eauto 10.
Qed.

(** X7. When two of the collected rows differ in width, [__init__] fails in
    [np.stack] with that function's error; it neither returns an index nor
    reports an empty database. *)
Theorem init_rows_of_two_widths_raise datasets topk i j row_i row_j :
  let rows := collect (compute_hash_key launch datasets
                         (select_uninferenced_dataset <$> datasets)).1 in
  rows !! i = Some row_i → rows !! j = Some row_j →
  length row_i.1 ≠ length row_j.1 →
  __init__ launch datasets topk = inl ValueError_stack.
Proof using Type.
  intros rows Hi Hj Hne.
  pose proof (init_unfold launch datasets topk) as Hunfold.
  cbv zeta in Hunfold. fold rows in Hunfold. rewrite Hunfold.
  rewrite decide_False by (intros Hnil; by rewrite Hnil in Hi).
  destruct (np.stack rows.*1) as [stacked|] eqn:Hst; [|done].
  apply stack_Some in Hst as (_ & _ & n & Hn). exfalso. apply Hne.
  rewrite list.Forall_forall in Hn.
  rewrite (Hn row_i.1), (Hn row_j.1); [done| |];
    apply list_elem_of_fmap_2; by eapply list_elem_of_lookup_2.
Qed.

End Rows.

Lemma init_rows_belong_to_items_witness :
  __init__ ex_no_launch [ex_dataset] 10 = inr ex_index ∧
  length (_database_keys ex_index) = length (_item_list ex_index) ∧
  ∀ i row, _database_keys ex_index !! i = Some row →
    ∃ item hash_key,
      _item_list ex_index !! i = Some item ∧
      HashKey hash_key ∈ annotations item ∧
      np.unpackbits hash_key = Some row.
Proof.
  assert (Hinit : __init__ ex_no_launch [ex_dataset] 10 = inr ex_index)
    by reflexivity.
  split; [exact Hinit|].
  apply (init_rows_belong_to_items ex_no_launch [ex_dataset] 10 ex_index Hinit).
Defined.

Lemma init_indexes_exactly_readable_items_witness :
  __init__ ex_no_launch [ex_mixed] 10
  = inr (mkExplorer (Some "clip_visual_ViT-B_32") None 10 [ex_bits x00]
           [ex_item_a]) ∧
  (ex_item_bare ∈ [ex_item_a] ↔
   ∃ dataset,
     dataset ∈ (compute_hash_key ex_no_launch [ex_mixed]
                  (select_uninferenced_dataset <$> [ex_mixed])).1 ∧
     ex_item_bare ∈ dataset ∧ has_readable_key ex_item_bare).
Proof.
  assert (Hinit : __init__ ex_no_launch [ex_mixed] 10
            = inr (mkExplorer (Some "clip_visual_ViT-B_32") None 10
                     [ex_bits x00] [ex_item_a])) by reflexivity.
  split; [exact Hinit|].
  exact (init_indexes_exactly_readable_items ex_no_launch [ex_mixed] 10 _
           ex_item_bare Hinit).
Defined.

Lemma init_rows_of_two_widths_raise_witness :
  collect (compute_hash_key ex_no_launch [[ex_item_a; ex_item_wide]]
             (select_uninferenced_dataset <$> [[ex_item_a; ex_item_wide]])).1
    !! 0 = Some (ex_bits x00, ex_item_a) ∧
  collect (compute_hash_key ex_no_launch [[ex_item_a; ex_item_wide]]
             (select_uninferenced_dataset <$> [[ex_item_a; ex_item_wide]])).1
    !! 1 = Some (ex_bits x00 ++ ex_bits x01, ex_item_wide) ∧
  length (ex_bits x00, ex_item_a).1
  ≠ length (ex_bits x00 ++ ex_bits x01, ex_item_wide).1 ∧
  __init__ ex_no_launch [[ex_item_a; ex_item_wide]] 10 = inl ValueError_stack.
Proof.
  assert (Hne : length (ex_bits x00, ex_item_a).1
                ≠ length (ex_bits x00 ++ ex_bits x01, ex_item_wide).1)
    by (simpl; lia).
  split_and!; [reflexivity|reflexivity|exact Hne|].
  exact (init_rows_of_two_widths_raise ex_no_launch
           [[ex_item_a; ex_item_wide]] 10 0 1
           (ex_bits x00, ex_item_a) (ex_bits x00 ++ ex_bits x01, ex_item_wide)
           eq_refl eq_refl Hne).
Defined.

(** ** What a call of [explore_topk] computes *)

Section Calls.

Variable launch : DatasetItem → list Annotation.
Variable infer_item : DatasetItem → option Annotation.
Variable infer_text : string → option Annotation.
Variable argsort : list Z → list nat.

Lemma explore_topk_unfold query topk self :
  explore_topk infer_item infer_text argsort query topk self =
  match query_bits infer_item infer_text query self with
  | (inl e, self') => (inl e, self')
  | (inr bits, self') =>
      match calculate_hamming bits (_database_keys self) with
      | None => (inl ValueError_broadcast, self')
      | Some logits =>
          match np.take_along (_item_list self) (argsort logits) with
          | None => (inl IndexError, self')
          | Some items =>
              (inr (np.slice_to (topk_or_default self topk) items), self')
          end
      end
  end.
Proof using Type.
  unfold explore_topk, bind, get_self.
  pose proof (query_bits_frame infer_item infer_text query self) as (_ & _ & _ & Hi).
  destruct (query_bits _ _ _ _) as [[e|bits] self']; [done|]. simpl in Hi.
  unfold rank, bind, get_self.
  destruct (calculate_hamming _ _) as [logits|]; [|done]. simpl.
  rewrite Hi. by destruct (np.take_along _ _).
Qed.

(** X8. Results for different k are consistent: when a call with k2
    returns, a call with a smaller positive k1 on the same object and
    query returns the first k1 entries of that result. *)
Theorem explore_topk_smaller_k_is_prefix query k1 k2 self result self' :
  (0 < k1 ≤ k2)%Z →
  explore_topk infer_item infer_text argsort query (Some k2) self
  = (inr result, self') →
  explore_topk infer_item infer_text argsort query (Some k1) self
  = (inr (take (Z.to_nat k1) result), self').
Proof using Type.
  intros Hk. rewrite !explore_topk_unfold.
  destruct (query_bits _ _ _ _) as [[e|bits] self'']; [done|].
  destruct (calculate_hamming _ _) as [logits|]; [|done].
  destruct (np.take_along _ _) as [items|]; [|done].
  intros [= <- <-]. simpl. rewrite !decide_False by lia.
  unfold np.slice_to.
  destruct (Z.ltb_spec k1 0), (Z.ltb_spec k2 0); try lia.
  rewrite take_take. by rewrite Nat.min_l by lia.
Qed.

(** X9. Whatever [np.argsort] returns, a result of [explore_topk] holds
    only items of the index, and with a non-negative effective k (the k
    passed in, or the default when it is absent or 0) it holds at most k of
    them. *)
Theorem explore_topk_returns_index_items query topk self result self' :
  explore_topk infer_item infer_text argsort query topk self
  = (inr result, self') →
  (∀ item, item ∈ result → item ∈ _item_list self) ∧
  ((0 ≤ topk_or_default self topk)%Z →
   length result ≤ Z.to_nat (topk_or_default self topk)).
Proof using Type.
  rewrite explore_topk_unfold.
  destruct (query_bits _ _ _ _) as [[e|bits] self'']; [done|].
  destruct (calculate_hamming _ _) as [logits|]; [|done].
  destruct (np.take_along _ _) as [items|] eqn:Hitems; [|done].
  intros [= <- <-]. split.
  - intros item Hin.
    assert (Hin' : item ∈ items).
    { unfold np.slice_to in Hin. case_match;
        apply elem_of_take in Hin as (i & Hi & _); by eapply list_elem_of_lookup_2. }
    apply list_elem_of_lookup in Hin' as [p Hp].
    apply mapM_Some in Hitems.
    destruct (Forall2_lookup_r _ _ _ _ _ Hitems Hp) as (i & _ & Hi).
    by eapply list_elem_of_lookup_2.
  - intros Hk. unfold np.slice_to.
    destruct (Z.ltb_spec (topk_or_default self topk) 0); [lia|].
    rewrite length_take. lia.
Qed.

End Calls.

Lemma explore_topk_smaller_k_is_prefix_witness :
  (0 < 1 ≤ 2)%Z ∧
  explore_topk ex_no_infer_item ex_no_infer_text npysort.argsort
    (QItem ex_query) (Some 2%Z) ex_index
  = (inr [ex_item_a; ex_item_b], ex_index) ∧
  explore_topk ex_no_infer_item ex_no_infer_text npysort.argsort
    (QItem ex_query) (Some 1%Z) ex_index
  = (inr (take (Z.to_nat 1) [ex_item_a; ex_item_b]), ex_index).
Proof.
  assert (Hk : (0 < 1 ≤ 2)%Z) by lia.
  assert (Hcall : explore_topk ex_no_infer_item ex_no_infer_text npysort.argsort
            (QItem ex_query) (Some 2%Z) ex_index
          = (inr [ex_item_a; ex_item_b], ex_index)) by reflexivity.
  split; [exact Hk|]. split; [exact Hcall|].
  exact (explore_topk_smaller_k_is_prefix ex_no_infer_item ex_no_infer_text
           npysort.argsort (QItem ex_query) 1 2 ex_index _ ex_index Hk Hcall).
Defined.

Lemma explore_topk_returns_index_items_witness :
  explore_topk ex_no_infer_item ex_no_infer_text npysort.argsort
    (QItem ex_query) (Some 2%Z) ex_index
  = (inr [ex_item_a; ex_item_b], ex_index) ∧
  (∀ item, item ∈ [ex_item_a; ex_item_b] → item ∈ _item_list ex_index) ∧
  ((0 ≤ topk_or_default ex_index (Some 2%Z))%Z →
   length [ex_item_a; ex_item_b]
   ≤ Z.to_nat (topk_or_default ex_index (Some 2%Z))).
Proof.
  assert (Hcall : explore_topk ex_no_infer_item ex_no_infer_text npysort.argsort
            (QItem ex_query) (Some 2%Z) ex_index
          = (inr [ex_item_a; ex_item_b], ex_index)) by reflexivity.
  split; [exact Hcall|].
  exact (explore_topk_returns_index_items ex_no_infer_item ex_no_infer_text
           npysort.argsort (QItem ex_query) (Some 2%Z) ex_index _ ex_index Hcall).
Defined.

(** ** The selection *)

Lemma count_nonzero_xor_zero (A B : list bool) :
  length A = length B →
  np.count_nonzero (zip_with xorb A B) = 0%Z → A = B.
Proof.
  unfold np.count_nonzero. intros Hlen Hz.
  assert (Hnil : filter (λ b, b = true) (zip_with xorb A B) = []).
  { apply nil_length_inv. lia. }
  clear Hz. revert B Hlen Hnil.
  induction A as [|a A IH]; intros [|b B] Hlen Hnil; simplify_eq/=; [done|].
  rewrite filter_cons in Hnil. case_decide as Hab; [done|].
  f_equal; [by destruct a, b|by apply IH].
Qed.

Section Selection.

Variable launch : DatasetItem → list Annotation.
Variable infer_item : DatasetItem → option Annotation.
Variable infer_text : string → option Annotation.
Variable argsort : list Z → list nat.




End Selection.





(** ** Query resolution *)



Section Resolution.

Variable launch : DatasetItem → list Annotation.
Variable infer_item : DatasetItem → option Annotation.
Variable infer_text : string → option Annotation.
Variable argsort : list Z → list nat.




(** X14. What a call assigns on the object. A call whose query is not a
    text leaves the whole object as it was, also when it raises; so does
    any call on an object whose text model is loaded. A text query on an
    object without a text model loads it, whether or not the call then
    raises. *)
Theorem explore_topk_assigns_only_text_model query topk self :
  let self' := (explore_topk infer_item infer_text argsort query topk self).2 in
  ((∀ text, query ≠ QText text) → self' = self) ∧
  (is_Some (_text_model self) → self' = self) ∧
  (∀ text, query = QText text →
     _text_model self'
     = Some (default "clip_text_ViT-B_32" (_text_model self))).
Proof using Type.
  assert (Hrest : ∀ r self1,
    (match r with
     | inl e => (inl e, self1)
     | inr bits =>
         match calculate_hamming bits (_database_keys self) with
         | None => (inl ValueError_broadcast, self1)
         | Some logits =>
             match np.take_along (_item_list self) (argsort logits) with
             | None => (inl IndexError, self1)
             | Some items =>
                 (inr (np.slice_to (topk_or_default self topk) items), self1)
             end
         end
     end : (Exn + list DatasetItem) * Explorer).2 = self1).
  { intros [e|bits] self1; [done|].
    destruct (calculate_hamming _ _); [|done]. by destruct (np.take_along _ _). }
  assert (Hcall :
    (explore_topk infer_item infer_text argsort query topk self).2
    = (query_bits infer_item infer_text query self).2).
  { rewrite explore_topk_unfold.
    destruct (query_bits _ _ _ _) as [r self1]. apply Hrest. }
  assert (Hbits : ∀ key self1,
    (match key with
     | Some (HashKey hash_key) =>
         or_raise TypeError_unpackbits (np.unpackbits hash_key)
     | _ => raise ValueError_query
     end self1 : (Exn + list bool) * Explorer).2 = self1).
  { intros [[hash_key|]|] self1; try done. by destruct (np.unpackbits hash_key). }
  intros self'. subst self'. rewrite Hcall. unfold query_bits, bind.
  destruct query as [item|text|]; simpl.
  - pose proof (item_query_frame infer_item item self) as Hfr.
    destruct (_get_hash_key_from_item_query _ _ _) as [[e|key] self1];
      simpl in Hfr; subst self1.
    + split_and!; done.
    + rewrite Hbits. split_and!; done.
  - unfold _get_hash_key_from_text_query, bind, text_model.
    destruct self as [model [text_model|] k keys items]; simpl.
    + rewrite Hbits. split_and!; [done..|]. by intros ? _.
    + rewrite Hbits. split_and!.
      * intros Hnot. by destruct (Hnot text).
      * by intros [? ?].
      * by intros ? _.
  - split_and!; done.
Qed.

(** X15. A text query and an item query resolve through the same ranking:
    when the text model answers with the [HashKey] that an item carries as
    its only one, the two calls have the same outcome, for every k. *)
Theorem text_and_item_queries_agree text item hash_key topk self :
  infer_text text = Some (HashKey hash_key) →
  hash_keys item = [HashKey hash_key] →
  (explore_topk infer_item infer_text argsort (QText text) topk self).1
  = (explore_topk infer_item infer_text argsort (QItem item) topk self).1.
Proof using Type.
  intros Htext Hitem. rewrite !explore_topk_unfold.
  unfold query_bits, bind. simpl.
  rewrite (item_query_one_key _ _ _ _ Hitem).
  unfold _get_hash_key_from_text_query, bind.
  destruct (text_model self) as [[e|m] self1] eqn:Hm.
  { unfold text_model in Hm. by destruct (_text_model self). }
  simpl. rewrite Htext.
  destruct (np.unpackbits hash_key) as [bits|]; simpl; [|done].
  destruct (calculate_hamming _ _); [|done]. by destruct (np.take_along _ _).
Qed.

(** X16. A query that yields no fingerprint is refused. A text for which
    the text model returns no [HashKey], and an item without [HashKey] for
    which the loaded visual model returns none, both make [explore_topk]
    raise "Query should have hash_key", for every k. *)
Theorem explore_topk_refuses_unresolved_query topk self :
  (∀ text, (∀ hash_key, infer_text text ≠ Some (HashKey hash_key)) →
     (explore_topk infer_item infer_text argsort (QText text) topk self).1
     = inl ValueError_query) ∧
  (∀ item, hash_keys item = [] → is_Some (_model self) →
     (∀ hash_key, infer_item item ≠ Some (HashKey hash_key)) →
     explore_topk infer_item infer_text argsort (QItem item) topk self
     = (inl ValueError_query, self)).
Proof using Type.
  split.
  - intros text Hno. rewrite explore_topk_unfold.
    unfold query_bits, bind. simpl.
    unfold _get_hash_key_from_text_query, bind.
    destruct (text_model self) as [[e|m] self1] eqn:Hm.
    { unfold text_model in Hm. by destruct (_text_model self). }
    simpl. destruct (infer_text text) as [[hash_key|]|] eqn:Ht; try done.
    by destruct (Hno hash_key).
  - intros item Hkeys [m Hm] Hno. rewrite explore_topk_unfold.
    unfold query_bits, bind. simpl.
    unfold _get_hash_key_from_item_query. fold (hash_keys item).
    rewrite Hkeys. simpl. unfold bind, get_self. rewrite Hm. simpl.
    destruct (infer_item item) as [[hash_key|]|] eqn:Hi; try done.
    by destruct (Hno hash_key).
Qed.

End Resolution.


Lemma explore_topk_assigns_only_text_model_witness :
  (∀ text, QItem ex_query ≠ QText text) ∧
  (explore_topk ex_no_infer_item (λ _, Some (fingerprint x01)) npysort.argsort
     (QItem ex_query) None ex_index).2 = ex_index ∧
  _text_model
    (explore_topk ex_no_infer_item (λ _, Some (fingerprint x01)) npysort.argsort
       (QText "a horse") None ex_index).2
  = Some (default "clip_text_ViT-B_32" (_text_model ex_index)).
Proof.
  assert (Hnot : ∀ text, QItem ex_query ≠ QText text) by done.
  split; [exact Hnot|]. split.
  - exact (proj1 (explore_topk_assigns_only_text_model ex_no_infer_item
                    (λ _, Some (fingerprint x01)) npysort.argsort
                    (QItem ex_query) None ex_index) Hnot).
  - exact (proj2 (proj2 (explore_topk_assigns_only_text_model ex_no_infer_item
                    (λ _, Some (fingerprint x01)) npysort.argsort
                    (QText "a horse") None ex_index)) "a horse" eq_refl).
Defined.

Lemma text_and_item_queries_agree_witness :
  (λ _ : string, Some (fingerprint x01)) "a horse"
  = Some (HashKey (np.uint8 [x01])) ∧
  hash_keys ex_query = [HashKey (np.uint8 [x01])] ∧
  (explore_topk ex_no_infer_item (λ _, Some (fingerprint x01)) npysort.argsort
     (QText "a horse") (Some 2%Z) ex_index).1
  = inr [ex_item_a; ex_item_b] ∧
  (explore_topk ex_no_infer_item (λ _, Some (fingerprint x01)) npysort.argsort
     (QText "a horse") (Some 2%Z) ex_index).1
  = (explore_topk ex_no_infer_item (λ _, Some (fingerprint x01)) npysort.argsort
       (QItem ex_query) (Some 2%Z) ex_index).1.
Proof.
  split_and!; [reflexivity..|].
  exact (text_and_item_queries_agree ex_no_infer_item
           (λ _, Some (fingerprint x01)) npysort.argsort "a horse" ex_query
           (np.uint8 [x01]) (Some 2%Z) ex_index eq_refl eq_refl).
Defined.

Lemma explore_topk_refuses_unresolved_query_witness :
  (∀ hash_key, ex_no_infer_text "a horse" ≠ Some (HashKey hash_key)) ∧
  (explore_topk ex_no_infer_item ex_no_infer_text npysort.argsort
     (QText "a horse") (Some 2%Z) ex_index).1 = inl ValueError_query.
Proof.
  assert (Hno : ∀ hash_key, ex_no_infer_text "a horse" ≠ Some (HashKey hash_key))
    by done.
  split; [exact Hno|].
  exact (proj1 (explore_topk_refuses_unresolved_query ex_no_infer_item
                  ex_no_infer_text npysort.argsort (Some 2%Z) ex_index)
           "a horse" Hno).
Defined.

(** ** The distance *)

Lemma count_nonzero_cons b row :
  np.count_nonzero (b :: row)
  = ((if b then 1 else 0) + np.count_nonzero row)%Z.
Proof.
  unfold np.count_nonzero. rewrite filter_cons.
  destruct b; [rewrite decide_True by done|rewrite decide_False by done];
    simpl length; lia.
Qed.

Lemma count_nonzero_le row : (np.count_nonzero row ≤ Z.of_nat (length row))%Z.
Proof.
  unfold np.count_nonzero. pose proof (length_filter (λ b, b = true) row). lia.
Qed.

Lemma zip_with_xorb_comm (A B : list bool) :
  zip_with xorb A B = zip_with xorb B A.
Proof.
  revert B. induction A as [|a A IH]; intros [|b B]; simpl; [done..|].
  by rewrite xorb_comm, IH.
Qed.

Lemma count_nonzero_xor_triangle (A B C : list bool) :
  length A = length B → length B = length C →
  (np.count_nonzero (zip_with xorb A C)
   ≤ np.count_nonzero (zip_with xorb A B)
     + np.count_nonzero (zip_with xorb B C))%Z.
Proof.
  revert B C. induction A as [|a A IH]; intros [|b B] [|c C] HAB HBC;
    simplify_eq/=; [done|].
  rewrite !count_nonzero_cons. specialize (IH B C HAB HBC).
  destruct a, b, c; simpl; lia.
Qed.

(** X17. Against a matrix whose rows have the width of the query,
    [calculate_hamming] returns one distance per row, in row order; each
    is the number of positions at which the row differs from the query and
    lies between 0 and the width. *)
Theorem calculate_hamming_one_distance_per_row
    (A : list bool) (M : list (list bool)) :
  Forall (λ row, length row = length A) M →
  ∃ logits,
    calculate_hamming A M = Some logits ∧
    length logits = length M ∧
    ∀ i row, M !! i = Some row →
      logits !! i = Some (Z.of_nat (differing_positions A row)) ∧
      differing_positions A row ≤ length A.
Proof.
  intros Hw. eexists. split; [by apply calculate_hamming_same_width|].
  split; [by rewrite length_fmap|].
  intros i row Hrow.
  assert (Hlen : length A = length row).
  { rewrite list.Forall_forall in Hw. symmetry. apply Hw.
    by eapply list_elem_of_lookup_2. }
  rewrite list_lookup_fmap, Hrow. simpl.
  rewrite count_nonzero_xor by done. split; [done|].
  pose proof (count_nonzero_le (zip_with xorb A row)) as Hle.
  rewrite count_nonzero_xor in Hle by done.
  rewrite length_zip_with in Hle. lia.
Qed.

(** X18. The distance of [calculate_hamming] is a metric on vectors of one
    width: it is 0 only between equal vectors, it is the same in both
    directions, and it obeys the triangle inequality. *)
Theorem calculate_hamming_is_a_metric (A B C : list bool) :
  length A = length B → length B = length C →
  ∃ ab bc ac,
    calculate_hamming A [B] = Some [ab] ∧
    calculate_hamming B [A] = Some [ab] ∧
    calculate_hamming B [C] = Some [bc] ∧
    calculate_hamming A [C] = Some [ac] ∧
    (ab = 0%Z ↔ A = B) ∧
    (ac ≤ ab + bc)%Z.
Proof.
  intros HAB HBC.
  exists (np.count_nonzero (zip_with xorb A B)),
         (np.count_nonzero (zip_with xorb B C)),
         (np.count_nonzero (zip_with xorb A C)).
  split_and!.
  - by rewrite calculate_hamming_same_width by (by repeat constructor).
  - rewrite calculate_hamming_same_width by (by repeat constructor).
    simpl. by rewrite zip_with_xorb_comm.
  - by rewrite calculate_hamming_same_width by (by repeat constructor).
  - rewrite calculate_hamming_same_width; [done|].
    repeat constructor. congruence.
  - split; [by apply count_nonzero_xor_zero|].
    intros ->. by rewrite count_nonzero_xor, differing_positions_self.
  - by apply count_nonzero_xor_triangle.
Qed.

Lemma calculate_hamming_one_distance_per_row_witness :
  Forall (λ row, length row = length (ex_bits x01))
    (_database_keys ex_index) ∧
  ∃ logits,
    calculate_hamming (ex_bits x01) (_database_keys ex_index) = Some logits ∧
    length logits = length (_database_keys ex_index) ∧
    ∀ i row, _database_keys ex_index !! i = Some row →
      logits !! i = Some (Z.of_nat (differing_positions (ex_bits x01) row)) ∧
      differing_positions (ex_bits x01) row ≤ length (ex_bits x01).
Proof.
  assert (Hw : Forall (λ row, length row = length (ex_bits x01))
                 (_database_keys ex_index)) by (repeat constructor).
  split; [exact Hw|].
  exact (calculate_hamming_one_distance_per_row (ex_bits x01)
           (_database_keys ex_index) Hw).
Defined.

Lemma calculate_hamming_is_a_metric_witness :
  length (ex_bits x01) = length (ex_bits x03) ∧
  length (ex_bits x03) = length (ex_bits xff) ∧
  ∃ ab bc ac,
    calculate_hamming (ex_bits x01) [ex_bits x03] = Some [ab] ∧
    calculate_hamming (ex_bits x03) [ex_bits x01] = Some [ab] ∧
    calculate_hamming (ex_bits x03) [ex_bits xff] = Some [bc] ∧
    calculate_hamming (ex_bits x01) [ex_bits xff] = Some [ac] ∧
    (ab = 0%Z ↔ ex_bits x01 = ex_bits x03) ∧
    (ac ≤ ab + bc)%Z.
Proof.
  split; [reflexivity|]. split; [reflexivity|].
  exact (calculate_hamming_is_a_metric (ex_bits x01) (ex_bits x03) (ex_bits xff)
           eq_refl eq_refl).
Defined.

(** ** From inference to the index *)

Section Inferred.

Variable launch : DatasetItem → list Annotation.

(** X19. What the model infers is what gets indexed: an item of an input
    dataset that carries no [HashKey], and for which the model yields a
    [HashKey] that unpacks, is in the built index with the model's
    annotations attached, at a place whose row is that unpacked key. *)
Theorem init_indexes_inferred_item
    datasets topk self (dataset : Dataset) item hash_key row :
  Forall (λ dataset : Dataset, NoDup (item_key <$> dataset)) datasets →
  dataset ∈ datasets → item ∈ dataset →
  hash_keys item = [] →
  HashKey hash_key ∈ launch item →
  np.unpackbits hash_key = Some row →
  __init__ launch datasets topk = inr self →
  ∃ i,
    _item_list self !! i
    = Some (mkItem (id item) (subset item) (annotations item ++ launch item)) ∧
    _database_keys self !! i = Some row.
Proof using Type.
  intros Hnd Hd Hitem Hkeys Hkey Hbits Hinit.
  destruct (init_fields _ _ _ _ Hinit) as [_ ->].
  cbn [_item_list _database_keys].
  set (item' := mkItem (id item) (subset item) (annotations item ++ launch item)).
  assert (Hin : (row, item') ∈
    collect (compute_hash_key launch datasets
               (select_uninferenced_dataset <$> datasets)).1).
  { apply elem_of_collect. exists (infer_missing launch <$> dataset).
    split_and!.
    - rewrite compute_hash_key_updated by done.
      by apply (list_elem_of_fmap_2 (λ dataset : Dataset, infer_missing launch <$> dataset)).
    - replace item' with (infer_missing launch item).
      + by apply list_elem_of_fmap_2.
      + unfold infer_missing. by rewrite decide_True.
    - exists hash_key. split; [|done]. simpl. apply elem_of_app. by right. }
  apply list_elem_of_lookup in Hin as [i Hi]. exists i.
  by rewrite !list_lookup_fmap, Hi.
Qed.

End Inferred.

Lemma init_indexes_inferred_item_witness :
  Forall (λ dataset : Dataset, NoDup (item_key <$> dataset)) [ex_mixed] ∧
  ex_mixed ∈ [ex_mixed] ∧ ex_item_bare ∈ ex_mixed ∧
  hash_keys ex_item_bare = [] ∧
  HashKey (np.uint8 [x0f]) ∈ ex_launch ex_item_bare ∧
  np.unpackbits (np.uint8 [x0f]) = Some (ex_bits x0f) ∧
  __init__ ex_launch [ex_mixed] 10
  = inr (mkExplorer (Some "clip_visual_ViT-B_32") None 10
           [ex_bits x00; ex_bits x0f]
           [ex_item_a;
            mkItem "e" "train" [OtherAnnotation "dog"; fingerprint x0f]]) ∧
  ∃ i,
    [ex_item_a; mkItem "e" "train" [OtherAnnotation "dog"; fingerprint x0f]] !! i
    = Some (mkItem (id ex_item_bare) (subset ex_item_bare)
              (annotations ex_item_bare ++ ex_launch ex_item_bare)) ∧
    [ex_bits x00; ex_bits x0f] !! i = Some (ex_bits x0f).
Proof.
  assert (Hnd : Forall (λ dataset : Dataset, NoDup (item_key <$> dataset))
                  [ex_mixed]).
  { constructor; [|constructor]. by apply (bool_decide_unpack _). }
  assert (Hd : ex_mixed ∈ [ex_mixed]) by (by left).
  assert (Hitem : ex_item_bare ∈ ex_mixed) by (right; by left).
  assert (Hkey : HashKey (np.uint8 [x0f]) ∈ ex_launch ex_item_bare)
    by (by left).
  assert (Hinit : __init__ ex_launch [ex_mixed] 10
    = inr (mkExplorer (Some "clip_visual_ViT-B_32") None 10
             [ex_bits x00; ex_bits x0f]
             [ex_item_a;
              mkItem "e" "train" [OtherAnnotation "dog"; fingerprint x0f]]))
    by reflexivity.
  split_and!; [done..|].
  exact (init_indexes_inferred_item ex_launch [ex_mixed] 10 _ ex_mixed
           ex_item_bare (np.uint8 [x0f]) (ex_bits x0f)
           Hnd Hd Hitem eq_refl Hkey eq_refl Hinit).
Defined.
